(** * Gomod edit preprocessing of dalec: a shallow embedding

    The development follows the Go sources: the edit directives and the
    [go mod edit] command compiler, the shell script synthesizer, the LLB
    patch-state builder and the preprocessing pass that registers the
    generated patch sources in the spec. *)

From stdpp Require Import base option list strings gmap sorting.
From Stdlib Require Import ZArith Ascii.

Set Warnings "-register-all".
Set Default Proof Using "Type".

(** ** Go values *)

Definition dquote : string := String (Ascii.ascii_of_nat 34) EmptyString.
Definition newline : string := String (Ascii.ascii_of_nat 10) EmptyString.

(** Go's [error] values as built by [errors.New], [errors.Wrap] and
    [errors.Join]; [None : option error] is the nil error. *)
Inductive error : Type :=
| errors_New (msg : string)
| errors_Wrap (cause : error) (msg : string)
| errors_Join (errs : list error).

(** The text of an error, as its [Error()] method prints it. *)
Fixpoint Error (e : error) : string :=
  match e with
  | errors_New msg => msg
  | errors_Wrap cause msg => msg +:+ ": " +:+ Error cause
  | errors_Join errs => String.concat newline (map Error errs)
  end.

(** [strings.Contains s sub]. *)
Definition strings_Contains (s sub : string) : bool :=
  match String.index 0 sub s with
  | Some _ => true
  | None => false
  end.

(** [strings.Cut s sep] for a one-byte separator: the text before the first
    separator, the text after it, and whether the separator was found. *)
Fixpoint strings_Cut (s : string) (sep : ascii) : string * string * bool :=
  match s with
  | EmptyString => (EmptyString, EmptyString, false)
  | String c rest =>
      if decide (c = sep) then (EmptyString, rest, true)
      else
        let '(before, after, found) := strings_Cut rest sep in
        (String c before, after, found)
  end.

Definition colon : ascii := Ascii.ascii_of_nat 58.

(** [strings.Join elems sep]. *)
Definition strings_Join (elems : list string) (sep : string) : string :=
  String.concat sep elems.

(** A sample for the escaping of [strconv.Quote], which the development
    takes as a parameter: what Go writes between the quotes for text whose
    runes beyond ASCII are valid and printable. A quote and a backslash get
    a backslash, printable ASCII bytes and the bytes of the runes beyond
    ASCII stand for themselves, the control bytes with a letter escape use
    it, and the other control bytes are written in hexadecimal. Runes beyond
    ASCII that Go does not print and bytes that are not valid UTF-8, which
    Go escapes, are outside this sample. *)
Definition hexDigit (n : N) : ascii :=
  Ascii.ascii_of_N (if (n <? 10)%N then 48 + n else 87 + n)%N.

Definition escapeByte (c : ascii) : string :=
  let n := Ascii.N_of_ascii c in
  let backslash := Ascii.ascii_of_nat 92 in
  if decide (n = 34%N) then String backslash (String c EmptyString)
  else if decide (n = 92%N) then String backslash (String c EmptyString)
  else if decide (32 ≤ n < 127)%N then String c EmptyString
  else if decide (128 ≤ n)%N then String c EmptyString
  else if decide (n = 7%N) then String backslash "a"
  else if decide (n = 8%N) then String backslash "b"
  else if decide (n = 12%N) then String backslash "f"
  else if decide (n = 10%N) then String backslash "n"
  else if decide (n = 13%N) then String backslash "r"
  else if decide (n = 9%N) then String backslash "t"
  else if decide (n = 11%N) then String backslash "v"
  else
    String backslash
      (String (Ascii.ascii_of_nat 120)
         (String (hexDigit (n / 16)) (String (hexDigit (n mod 16)) EmptyString))).

Fixpoint strconvEscapeASCII (s : string) : string :=
  match s with
  | EmptyString => EmptyString
  | String c rest => escapeByte c +:+ strconvEscapeASCII rest
  end.

(** ** Edit directives *)

Record GomodReplace : Type := {
  Original : string;
  Update : string;
}.

Record GomodRequire : Type := {
  Module : string;
  Version : string;
}.

Record GomodEdits : Type := {
  Replace : list GomodReplace;
  Require : list GomodRequire;
}.

(** [None] stands for the nil error of an empty violation list. *)
Definition joinViolations (msgs : list string) : option error :=
  match msgs with
  | [] => None
  | _ => Some (errors_Join (map errors_New msgs))
  end.

(** Modelled from the spec: the per-directive checks behind [Validate] and
    [goModEditArg] are not among the sources. Section 4.1 lists them: a
    Require needs a non-empty module and a version containing [@]; a Replace
    needs both sides non-empty. *)
Definition requireViolations (r : GomodRequire) : list string :=
  (if decide (Module r = "") then ["module must be non-empty"] else []) ++
  (if strings_Contains (Version r) "@" then [] else ["version must include @version"]).

Definition replaceViolations (r : GomodReplace) : list string :=
  (if decide (Original r = "") then ["old must be non-empty"] else []) ++
  (if decide (Update r = "") then ["new must be non-empty"] else []).

Definition GomodRequire_validate (r : GomodRequire) : option error :=
  joinViolations (requireViolations r).

Definition GomodReplace_validate (r : GomodReplace) : option error :=
  joinViolations (replaceViolations r).

(** Modelled from the spec: [goModEditArg] is not among the sources. Section
    4.1 (RenderArg): a Require renders to its version verbatim when valid, a
    Replace to [old=new] when both sides are non-empty; otherwise the render
    fails. *)
Definition GomodRequire_goModEditArg (r : GomodRequire) : string * option error :=
  match GomodRequire_validate r with
  | Some err => ("", Some err)
  | None => (Version r, None)
  end.

Definition GomodReplace_goModEditArg (r : GomodReplace) : string * option error :=
  match GomodReplace_validate r with
  | Some err => ("", Some err)
  | None => (Original r +:+ "=" +:+ Update r, None)
  end.

(** Modelled from the spec: [Validate] on an edit set is not among the
    sources. Section 4.1: it checks every Require and every Replace and
    aggregates all violations into one error. *)
Definition GomodEdits_violations (e : GomodEdits) : list string :=
  concat (map requireViolations (Require e)) ++
  concat (map replaceViolations (Replace e)).

Definition GomodEdits_validate (e : GomodEdits) : option error :=
  joinViolations (GomodEdits_violations e).

(** ** Decoding of directives

    A JSON or YAML document as its reader hands it to the decoder: a scalar
    string, a mapping from field names to scalar strings, or anything
    else. *)
Inductive Node : Type :=
| scalarNode (value : string)
| mappingNode (fields : list (string * string))
| otherNode.

Inductive Encoding : Type :=
| encodingJSON
| encodingYAML.

(** The value a mapping gives a field, if it names the field. *)
Fixpoint lookupField (fields : list (string * string)) (name : string)
  : option string :=
  match fields with
  | [] => None
  | (key, value) :: rest =>
      if decide (key = name) then Some value else lookupField rest name
  end.

(** The value of a struct field after a mapping was decoded into the
    struct: an absent field leaves the zero value, the empty string. *)
Definition fieldValue (fields : list (string * string)) (name : string) : string :=
  default "" (lookupField fields name).

Section Decoding.

(** The readers of [encoding/json] and [goccy/go-yaml], which the decoders
    call on the raw text: the document a text holds in an encoding. *)
Variable readDocument : Encoding → string → Node.

(** Modelled from the spec: [UnmarshalJSON] and [UnmarshalYAML] of the two
    directive types are not among the sources. Section 3: a compact string
    is split on its first colon into the two fields, a mapping gives the two
    named fields, and decoding fails only where it cannot produce a value,
    for a compact string without a colon and for a mapping that lacks a
    field; every other violation is left to validation. *)
Definition decodeShape (left right : string) (n : Node)
  : (string * string) + error :=
  match n with
  | scalarNode s =>
      let '(before, after, found) := strings_Cut s colon in
      if found then inl (before, after)
      else inr (errors_New "expected format left:right")
  | mappingNode fields =>
      match lookupField fields left, lookupField fields right with
      | Some l, Some r => inl (l, r)
      | _, _ => inr (errors_New "missing field")
      end
  | otherNode => inr (errors_New "expected a string or a mapping")
  end.

Definition GomodRequire_UnmarshalShape (enc : Encoding) (data : string)
  : GomodRequire + error :=
  match decodeShape "module" "version" (readDocument enc data) with
  | inr err => inr err
  | inl (module, version) => inl {| Module := module; Version := version |}
  end.

Definition GomodReplace_UnmarshalShape (enc : Encoding) (data : string)
  : GomodReplace + error :=
  match decodeShape "old" "new" (readDocument enc data) with
  | inr err => inr err
  | inl (old, new) => inl {| Original := old; Update := new |}
  end.

(** Modelled from the spec: the same decoders with the two checks that the
    decode tests of the sources demand at decode time, where they are the
    authority over section 3. TestGomodRequireUnmarshal expects an error for
    a version without [@], in a compact string and in a mapping;
    TestGomodReplaceUnmarshal expects an error for a mapping with an empty
    field, as section 8 has it (a structured decode requires both fields
    present and non-empty). Nothing else is checked: an empty side of a
    compact string is left to validation, as section 3 says. *)
Definition decodeFields (left right : string) (n : Node)
  : (string * string) + error :=
  match n with
  | scalarNode s =>
      let '(before, after, found) := strings_Cut s colon in
      if found then inl (before, after)
      else inr (errors_New "expected format left:right")
  | mappingNode fields =>
      let l := fieldValue fields left in
      let r := fieldValue fields right in
      if decide (l = "" ∨ r = "") then
        inr (errors_New (left +:+ " and " +:+ right +:+ " must be non-empty"))
      else inl (l, r)
  | otherNode => inr (errors_New "expected a string or a mapping")
  end.

Definition GomodRequire_Unmarshal (enc : Encoding) (data : string)
  : GomodRequire + error :=
  match decodeFields "module" "version" (readDocument enc data) with
  | inr err => inr err
  | inl (module, version) =>
      if strings_Contains version "@" then
        inl {| Module := module; Version := version |}
      else inr (errors_New "version must include @version")
  end.

Definition GomodReplace_Unmarshal (enc : Encoding) (data : string)
  : GomodReplace + error :=
  match decodeFields "old" "new" (readDocument enc data) with
  | inr err => inr err
  | inl (old, new) => inl {| Original := old; Update := new |}
  end.

End Decoding.

(** ** The edit command compiler *)

Record GomodGitAuthSSH : Type := {
  ID : string;
  Username : string;
}.

Record GomodGitAuth : Type := {
  Header : string;
  Token : string;
  SSH : option GomodGitAuthSSH;
}.

Record GeneratorGomod : Type := {
  Paths : list string;
  Auth : gmap string GomodGitAuth;
  Edits : option GomodEdits;
}.

(** The first loop of [gomodEditCommand]: renders the replace directives in
    order, appending one flag each, and stops at the first render error. *)
Fixpoint replaceArgs (rs : list GomodReplace) (args : list string)
  : list string * option error :=
  match rs with
  | [] => (args, None)
  | r :: rest =>
      match GomodReplace_goModEditArg r with
      | (_, Some err) => ([], Some err)
      | (arg, None) => replaceArgs rest (args ++ ["-replace=" +:+ arg])
      end
  end.

(** The second loop, over the require directives. *)
Fixpoint requireArgs (rs : list GomodRequire) (args : list string)
  : list string * option error :=
  match rs with
  | [] => (args, None)
  | r :: rest =>
      match GomodRequire_goModEditArg r with
      | (_, Some err) => ([], Some err)
      | (arg, None) => requireArgs rest (args ++ ["-require=" +:+ arg])
      end
  end.

Definition gomodEditCommand (g : option GeneratorGomod) : string * option error :=
  match g with
  | None => ("", None)
  | Some g =>
      match Edits g with
      | None => ("", None)
      | Some edits =>
          match replaceArgs (Replace edits) [] with
          | (_, Some err) => ("", Some err)
          | (args, None) =>
              match requireArgs (Require edits) args with
              | (_, Some err) => ("", Some err)
              | (args, None) =>
                  if decide (length args = 0) then ("", None)
                  else ("go mod edit " +:+ strings_Join args " ", None)
              end
          end
      end
  end.

(** ** Paths: Go's [path/filepath] on a slash-separated system *)

Definition slash : ascii := Ascii.ascii_of_nat 47.

(** [strings.Split s sep] for a one-byte separator. *)
Fixpoint splitOn (sep : ascii) (s : string) : list string :=
  match s with
  | EmptyString => [EmptyString]
  | String c rest =>
      if decide (c = sep) then EmptyString :: splitOn sep rest
      else
        match splitOn sep rest with
        | [] => [String c EmptyString]
        | elem :: elems => String c elem :: elems
        end
  end.

(** One element of the path seen by [filepath.Clean]; [kept] holds the
    elements written so far, the last one first. Empty and [.] elements are
    dropped, [..] removes the element before it when there is one to
    remove, is dropped at the root, and is kept in a relative path. *)
Definition cleanElem (rooted : bool) (kept : list string) (elem : string)
  : list string :=
  if decide (elem = "") then kept
  else if decide (elem = ".") then kept
  else if decide (elem = "..") then
    match kept with
    | top :: below =>
        if decide (top = "..") then ".." :: kept else below
    | [] => if rooted then [] else [".."]
    end
  else elem :: kept.

Definition filepath_Clean (path : string) : string :=
  match path with
  | EmptyString => "."
  | String c _ =>
      let rooted := bool_decide (c = slash) in
      let kept := fold_left (cleanElem rooted) (splitOn slash path) [] in
      let body := strings_Join (rev kept) "/" in
      if rooted then "/" +:+ body
      else if decide (body = "") then "." else body
  end.

(** [filepath.Join]: leading empty elements are ignored, the rest is joined
    with slashes and cleaned; no non-empty element gives the empty path. *)
Fixpoint filepath_Join (elem : list string) : string :=
  match elem with
  | [] => ""
  | e :: rest =>
      if decide (e = "") then filepath_Join rest
      else filepath_Clean (strings_Join elem "/")
  end.

(** ** The script synthesizer *)

Definition gomodPatchSourcePrefix : string := "__gomod_patch_".
Definition gomodPatchFilename : string := "gomod.patch".
Definition gomodFilename : string := "go.mod".
Definition gosumFilename : string := "go.sum".
Definition defaultGitUsername : string := "git".

Record moduleInfo : Type := {
  RelModulePath : string;
  ModuleDir : string;
  GoModPath : string;
  GoSumPath : string;
  RelGoModPath : string;
  RelGoSumPath : string;
}.

Record scriptTemplateData : Type := {
  PatchPath : string;
  EditCmd : string;
  GitConfig : string;
  GoPrivate : string;
  GoInsecure : string;
  GoModFilename : string;
  GoSumFilename : string;
  Modules : list moduleInfo;
}.

(** [quoted s] is [s] between double quotes, as the template writes a shell
    word. *)
Definition quoted (s : string) : string := dquote +:+ s +:+ dquote.

(** Each line followed by a newline. *)
Definition unlines (ls : list string) : string :=
  String.concat "" (map (λ l, l +:+ newline) ls).

(** The embedded template [scripts/gomod-patch.sh], executed by
    [text/template]. The template's text is cut at its actions; an action
    opening with a dash removes the white space before it, so every block
    below starts with the newline that ends the line before it.

    The text up to the first conditional. *)
Definition scriptPrologue (d : scriptTemplateData) : string :=
  unlines [
    "#!/bin/sh";
    "set -e";
    "";
    "# Ensure Go is in PATH";
    "# On older Ubuntu versions, Go is installed in versioned directories like /usr/lib/go-1.18/bin";
    "if ! command -v go >/dev/null 2>&1; then";
    "  for godir in /usr/lib/go-*/bin; do";
    "    if [ -d " +:+ quoted "$godir" +:+ " ] && [ -x " +:+ quoted "$godir/go" +:+ " ]; then";
    "      export PATH=" +:+ quoted "$godir:$PATH";
    "      break";
    "    fi";
    "  done";
    "fi";
    "";
    "export GOMODCACHE=" +:+ quoted "${TMP_GOMODCACHE}";
    ": > " +:+ quoted (PatchPath d);
    "echo 'Generating gomod patch with edits: " +:+ EditCmd d +:+ "'"
  ] +:+ "echo ''".

(** The block guarded by [if .GitConfig]. *)
Definition scriptGitConfig (d : scriptTemplateData) : string :=
  if decide (GitConfig d = "") then ""
  else newline +:+ "# Setup git authentication" +:+ newline +:+ GitConfig d.

(** The block guarded by [if .GoPrivate]. *)
Definition scriptGoPrivate (d : scriptTemplateData) : string :=
  if decide (GoPrivate d = "") then ""
  else
    newline +:+ "export GOPRIVATE=" +:+ GoPrivate d +:+
    newline +:+ "export GOINSECURE=" +:+ GoInsecure d.

(** The body of [range .Modules] for one module. *)
Definition scriptModule (d : scriptTemplateData) (m : moduleInfo) : string :=
  let tmpMod := quoted ("$tmpdir/" +:+ GoModFilename d) in
  let tmpSum := quoted ("$tmpdir/" +:+ GoSumFilename d) in
  newline +:+
  unlines [
    "# Process " +:+ RelModulePath m;
    "if [ -f " +:+ quoted (GoModPath m) +:+ " ]; then";
    "  tmpdir=$(mktemp -d)";
    "  cp " +:+ quoted (GoModPath m) +:+ " " +:+ tmpMod;
    "  if [ -f " +:+ quoted (GoSumPath m) +:+ " ]; then cp " +:+
      quoted (GoSumPath m) +:+ " " +:+ tmpSum +:+ "; else : > " +:+ tmpSum +:+ "; fi";
    "  cd " +:+ quoted (ModuleDir m);
    "  " +:+ EditCmd d;
    "  go mod tidy";
    "  cd -";
    "  if [ ! -f " +:+ quoted (GoSumPath m) +:+ " ]; then touch " +:+
      quoted (GoSumPath m) +:+ "; fi";
    "";
    "  # Capture diffs and append to patch file";
    "  diff -u --label a/" +:+ RelGoModPath m +:+ " --label b/" +:+ RelGoModPath m +:+
      " " +:+ tmpMod +:+ " " +:+ quoted (GoModPath m) +:+ " >> " +:+
      quoted (PatchPath d) +:+ " || true";
    "  if [ -f " +:+ quoted (GoSumPath m) +:+ " ] || [ -s " +:+ tmpSum +:+ " ]; then";
    "    diff -u --label a/" +:+ RelGoSumPath m +:+ " --label b/" +:+ RelGoSumPath m +:+
      " " +:+ tmpSum +:+ " " +:+ quoted (GoSumPath m) +:+ " >> " +:+
      quoted (PatchPath d) +:+ " || true";
    "  fi";
    "  rm -rf " +:+ quoted "$tmpdir"
  ] +:+ "fi".

(** The text after the range. *)
Definition scriptEpilogue (d : scriptTemplateData) : string :=
  newline +:+ newline +:+
  unlines [
    "echo 'Gomod patch generation complete'";
    "if [ -s " +:+ quoted (PatchPath d) +:+ " ]; then";
    "  echo 'Patch file created with changes'";
    "  wc -l " +:+ quoted (PatchPath d);
    "else";
    "  echo 'No changes detected - patch file is empty'";
    "fi"
  ].

(** [tmpl.Execute] on the parsed template. *)
Definition executeTemplate (d : scriptTemplateData) : string :=
  scriptPrologue d +:+
  scriptGitConfig d +:+
  scriptGoPrivate d +:+
  String.concat "" (map (scriptModule d) (Modules d)) +:+
  scriptEpilogue d.

(** The script text that follows the git authentication block, and the text
    that follows the export of GOPRIVATE and GOINSECURE. *)
Definition scriptAfterGoPrivate (d : scriptTemplateData) : string :=
  String.concat "" (map (scriptModule d) (Modules d)) +:+ scriptEpilogue d.

Definition scriptAfterGitConfig (d : scriptTemplateData) : string :=
  scriptGoPrivate d +:+ scriptAfterGoPrivate d.

Record SourceGenerator : Type := {
  Subpath : string;
  Gomod : option GeneratorGomod;
}.

(** Modelled from the spec: [Validate] of a generator is not among the
    sources; on a gomod generator with edits it is the validation of the edit
    set (section 4.1). *)
Definition SourceGenerator_Validate (gen : SourceGenerator) : option error :=
  match Gomod gen with
  | Some g =>
      match Edits g with
      | Some edits => GomodEdits_validate edits
      | None => None
      end
  | None => None
  end.

(** Modelled from the spec: [SortMapKeys] is not among the sources. Section
    6: a function returning deterministically sorted host keys from a
    mapping. Go sorts strings bytewise, which is the order [String.le]. *)
Definition SortMapKeys {V : Type} (m : gmap string V) : list string :=
  merge_sort String.le (map_to_list m).*1.

(** The zero value a Go map lookup yields for an absent key. *)
Definition zeroGomodGitAuth : GomodGitAuth :=
  {| Header := ""; Token := ""; SSH := None |}.

(** The credential-helper kind chosen by the [switch] of
    [buildGomodPatchScript]. *)
Definition authKind (auth : GomodGitAuth) : string :=
  if decide (Token auth ≠ "") then "token"
  else if decide (Header auth ≠ "") then "header"
  else "".

(** What one iteration of the host loop writes to the git configuration. *)
Definition gitConfigLine (auth : GomodGitAuth) (host : string) : string :=
  let gpHost := (strings_Cut host colon).1.1 in
  match SSH auth with
  | Some sshConfig =>
      let username :=
        if decide (Username sshConfig ≠ "") then Username sshConfig
        else defaultGitUsername in
      "git config --global url." +:+
      quoted ("ssh://" +:+ username +:+ "@" +:+ host +:+ "/") +:+
      ".insteadOf https://" +:+ gpHost +:+ "/" +:+ newline
  | None =>
      let kind := authKind auth in
      if decide (kind ≠ "") then
        "git config --global credential." +:+
        quoted ("https://" +:+ host +:+ ".helper") +:+ " " +:+
        quoted ("/usr/local/bin/frontend credential-helper --kind=" +:+ kind) +:+
        newline
      else ""
  end.

(** The loop over the sorted hosts: [gitConfig] is the builder's content and
    [goPrivateHosts] the slice appended to. *)
Fixpoint hostLoop (Auth : gmap string GomodGitAuth) (hosts : list string)
    (gitConfig : string) (goPrivateHosts : list string)
  : string * list string :=
  match hosts with
  | [] => (gitConfig, goPrivateHosts)
  | host :: rest =>
      let auth := default zeroGomodGitAuth (Auth !! host) in
      let gpHost := (strings_Cut host colon).1.1 in
      hostLoop Auth rest (gitConfig +:+ gitConfigLine auth host)
        (goPrivateHosts ++ [gpHost])
  end.

(** The loop over the module paths. *)
Definition buildModuleInfo (joinedWorkDir subpath relPath : string) : moduleInfo :=
  let moduleDir := filepath_Clean (filepath_Join [joinedWorkDir; relPath]) in
  let relModulePath := filepath_Clean (filepath_Join [subpath; relPath]) in
  let relModulePath := if decide (relModulePath = ".") then "" else relModulePath in
  {| RelModulePath := relModulePath;
     ModuleDir := moduleDir;
     GoModPath := filepath_Join [moduleDir; gomodFilename];
     GoSumPath := filepath_Join [moduleDir; gosumFilename];
     RelGoModPath := filepath_Join [relModulePath; gomodFilename];
     RelGoSumPath := filepath_Join [relModulePath; gosumFilename] |}.

(** ** LLB states

    The build-graph descriptions of buildkit, as far as this code builds
    them. States made elsewhere (the worker image, fetched sources) and the
    options handed in by callers are opaque. *)

Inductive ConstraintsOpt : Type :=
| constraintsOpt (id : string).

Inductive CacheMountSharingMode : Type :=
| CacheMountShared
| CacheMountPrivate
| CacheMountLocked.

Inductive MountOption : Type :=
| SourcePath (src : string)
| AsPersistentCacheDir (id : string) (mode : CacheMountSharingMode).

Inductive State : Type :=
| Scratch
| opaqueState (id : string)
| File (base : State) (action : FileAction) (constraints : list ConstraintsOpt)
| RunAddMount (base : State) (ro : list RunOption) (target : string) (source : State)
with FileAction : Type :=
| Mkfile (path : string) (mode : N) (data : string)
| Mkdir (path : string) (mode : N) (withParents : bool)
| Copy (input : State) (src dest : string)
with RunOption : Type :=
| Args (argv : list string)
| AddMount (target : string) (source : State) (opts : list MountOption)
| AddEnv (key value : string)
| WithConstraints (constraints : list ConstraintsOpt)
| ProgressGroup (name : string)
| opaqueRunOption (id : string).

(** ** The spec *)

Inductive sourceMap : Type :=
| opaqueSourceMap (id : string).

Record SourceLLB : Type := {
  state : State;
  _sourceMap : option sourceMap;
}.

Definition newSourceLLB (st : State) : SourceLLB :=
  {| state := st; _sourceMap := None |}.

Record Source : Type := {
  LLB : option SourceLLB;
  Generate : list (option SourceGenerator);
}.

Record PatchSpec : Type := {
  PatchSource : string;
  Strip : option Z;
  Path : string;
}.

Record Spec : Type := {
  Sources : gmap string Source;
  Patches : option (gmap string (list PatchSpec));
}.

Record SourceOpts : Type := {
  GitCredHelperOpt : option RunOption * option error;
}.

(** [s.Patches[name]]: reading a nil map or an absent key gives the nil
    slice. *)
Definition patchesOf (s : Spec) (name : string) : list PatchSpec :=
  match Patches s with
  | None => []
  | Some patches => default [] (patches !! name)
  end.

(** Modelled from the spec: [gomodSources] is not among the sources. Section
    4.5: it collects every source that declares at least one generator with
    edit directives. *)
Definition hasGomodEdits (gen : option SourceGenerator) : bool :=
  match gen with
  | Some gen =>
      match Gomod gen with
      | Some g =>
          match Edits g with
          | Some edits =>
              bool_decide (Replace edits ≠ [] ∨ Require edits ≠ [])
          | None => false
          end
      | None => false
      end
  | None => false
  end.

Definition gomodSources (s : Spec) : gmap string Source :=
  filter (λ entry, existsb hasGomodEdits (Generate entry.2) = true) (Sources s).

(** The patch source name derived from a source name. *)
Definition patchSourceNameOf (sourceName : string) : string :=
  gomodPatchSourcePrefix +:+ sourceName.

(** The patch reference [preprocessGomodEdits] appends for a source. *)
Definition gomodPatchSpec (sourceName : string) : PatchSpec :=
  {| PatchSource := patchSourceNameOf sourceName;
     Strip := Some 1%Z;
     Path := gomodPatchFilename |}.

(** The registration at the end of the loop body of
    [preprocessGomodEdits]: the assignment to [s.Sources], the allocation of
    a nil [s.Patches], and the append to the source's patches. *)
Definition registerGomodPatch (s : Spec) (sourceName : string) (patchSt : State)
  : Spec :=
  let patchSourceName := patchSourceNameOf sourceName in
  let sources :=
    <[patchSourceName := {| LLB := Some (newSourceLLB patchSt); Generate := [] |}]>
      (Sources s) in
  let patches := default ∅ (Patches s) in
  {| Sources := sources;
     Patches :=
       Some (<[sourceName :=
                 default [] (patches !! sourceName) ++ [gomodPatchSpec sourceName]]>
               patches) |}.

(** ** The decode tests

    The tables and the bodies of TestGomodRequireUnmarshal and
    TestGomodReplaceUnmarshal; the decoder under test is an argument. A row
    names the encoding whose [Unmarshal] it calls. *)
Module TestGomodRequireUnmarshal.

Record test : Type := {
  name : string;
  input : string;
  unmarshal : Encoding;
  expectErr : bool;
  expectedModule : string;
  expectedVersion : string;
}.

Definition tests : list test := [
  {| name := "YAML string format";
     input := quoted "github.com/stretchr/testify:github.com/stretchr/testify@v1.8.0";
     unmarshal := encodingYAML;
     expectErr := false;
     expectedModule := "github.com/stretchr/testify";
     expectedVersion := "github.com/stretchr/testify@v1.8.0" |};
  {| name := "YAML struct format";
     input := newline +:+ "module: github.com/cpuguy83/tar2go" +:+ newline +:+
              "version: github.com/cpuguy83/tar2go@v0.3.1" +:+ newline;
     unmarshal := encodingYAML;
     expectErr := false;
     expectedModule := "github.com/cpuguy83/tar2go";
     expectedVersion := "github.com/cpuguy83/tar2go@v0.3.1" |};
  {| name := "JSON string format";
     input := quoted "github.com/stretchr/testify:github.com/stretchr/testify@v1.8.0";
     unmarshal := encodingJSON;
     expectErr := false;
     expectedModule := "github.com/stretchr/testify";
     expectedVersion := "github.com/stretchr/testify@v1.8.0" |};
  {| name := "JSON struct format";
     input := "{" +:+ quoted "module" +:+ ":" +:+ quoted "github.com/cpuguy83/tar2go" +:+
              "," +:+ quoted "version" +:+ ":" +:+
              quoted "github.com/cpuguy83/tar2go@v0.3.1" +:+ "}";
     unmarshal := encodingJSON;
     expectErr := false;
     expectedModule := "github.com/cpuguy83/tar2go";
     expectedVersion := "github.com/cpuguy83/tar2go@v0.3.1" |};
  {| name := "invalid string format - no colon";
     input := quoted "github.com/stretchr/testify";
     unmarshal := encodingYAML;
     expectErr := true;
     expectedModule := "";
     expectedVersion := "" |};
  {| name := "invalid string format - no @version";
     input := quoted "github.com/stretchr/testify:v1.8.0";
     unmarshal := encodingYAML;
     expectErr := true;
     expectedModule := "";
     expectedVersion := "" |};
  {| name := "invalid struct format - missing version";
     input := "{" +:+ quoted "module" +:+ ":" +:+ quoted "github.com/cpuguy83/tar2go" +:+
              "}";
     unmarshal := encodingJSON;
     expectErr := true;
     expectedModule := "";
     expectedVersion := "" |};
  {| name := "invalid struct format - version without @";
     input := "{" +:+ quoted "module" +:+ ":" +:+ quoted "github.com/cpuguy83/tar2go" +:+
              "," +:+ quoted "version" +:+ ":" +:+ quoted "v0.3.1" +:+ "}";
     unmarshal := encodingJSON;
     expectErr := true;
     expectedModule := "";
     expectedVersion := "" |}
].

(** The body of [t.Run] for one row: whether the row passes. *)
Definition run (Unmarshal : Encoding → string → GomodRequire + error) (tt : test)
  : bool :=
  match Unmarshal (unmarshal tt) (input tt) with
  | inr err => expectErr tt
  | inl req =>
      if expectErr tt then false
      else bool_decide (Module req = expectedModule tt) &&
           bool_decide (Version req = expectedVersion tt)
  end.

Definition passes (Unmarshal : Encoding → string → GomodRequire + error) : bool :=
  forallb (run Unmarshal) tests.

End TestGomodRequireUnmarshal.

Module TestGomodReplaceUnmarshal.

Record test : Type := {
  name : string;
  input : string;
  unmarshal : Encoding;
  expectErr : bool;
  expectedOld : string;
  expectedNew : string;
}.

Definition tests : list test := [
  {| name := "YAML string format";
     input := quoted "github.com/stretchr/testify:github.com/stretchr/testify@v1.8.0";
     unmarshal := encodingYAML;
     expectErr := false;
     expectedOld := "github.com/stretchr/testify";
     expectedNew := "github.com/stretchr/testify@v1.8.0" |};
  {| name := "YAML struct format";
     input := newline +:+ "old: github.com/cpuguy83/tar2go" +:+ newline +:+
              "new: github.com/cpuguy83/tar2go@v0.3.1" +:+ newline;
     unmarshal := encodingYAML;
     expectErr := false;
     expectedOld := "github.com/cpuguy83/tar2go";
     expectedNew := "github.com/cpuguy83/tar2go@v0.3.1" |};
  {| name := "JSON string format";
     input := quoted "github.com/stretchr/testify:github.com/stretchr/testify@v1.8.0";
     unmarshal := encodingJSON;
     expectErr := false;
     expectedOld := "github.com/stretchr/testify";
     expectedNew := "github.com/stretchr/testify@v1.8.0" |};
  {| name := "JSON struct format";
     input := "{" +:+ quoted "old" +:+ ":" +:+ quoted "github.com/cpuguy83/tar2go" +:+
              "," +:+ quoted "new" +:+ ":" +:+
              quoted "github.com/cpuguy83/tar2go@v0.3.1" +:+ "}";
     unmarshal := encodingJSON;
     expectErr := false;
     expectedOld := "github.com/cpuguy83/tar2go";
     expectedNew := "github.com/cpuguy83/tar2go@v0.3.1" |};
  {| name := "invalid string format - no colon";
     input := quoted "github.com/stretchr/testify";
     unmarshal := encodingYAML;
     expectErr := true;
     expectedOld := "";
     expectedNew := "" |};
  {| name := "invalid struct format - missing new";
     input := "{" +:+ quoted "old" +:+ ":" +:+ quoted "github.com/cpuguy83/tar2go" +:+ "}";
     unmarshal := encodingJSON;
     expectErr := true;
     expectedOld := "";
     expectedNew := "" |};
  {| name := "invalid struct format - empty old";
     input := "{" +:+ quoted "old" +:+ ":" +:+ quoted "" +:+ "," +:+
              quoted "new" +:+ ":" +:+ quoted "github.com/cpuguy83/tar2go@v0.3.1" +:+ "}";
     unmarshal := encodingJSON;
     expectErr := true;
     expectedOld := "";
     expectedNew := "" |}
].

Definition run (Unmarshal : Encoding → string → GomodReplace + error) (tt : test)
  : bool :=
  match Unmarshal (unmarshal tt) (input tt) with
  | inr err => expectErr tt
  | inl repl =>
      if expectErr tt then false
      else bool_decide (Original repl = expectedOld tt) &&
           bool_decide (Update repl = expectedNew tt)
  end.

Definition passes (Unmarshal : Encoding → string → GomodReplace + error) : bool :=
  forallb (run Unmarshal) tests.

End TestGomodReplaceUnmarshal.

(** A reader for the part of JSON and YAML that the decode tests use:
    strings between double quotes without escapes, JSON objects with such
    strings as keys and values, and YAML block mappings of plain scalars,
    one [key: value] to a line. Any other text reads as [otherNode]. *)
Definition isSpace (c : ascii) : bool :=
  bool_decide (c ∈ map Ascii.ascii_of_nat [32; 9; 10; 13]).

Fixpoint skipSpace (s : string) : string :=
  match s with
  | EmptyString => EmptyString
  | String c rest => if isSpace c then skipSpace rest else s
  end.

(** The text up to the closing quote, and the text after it. *)
Fixpoint readQuoted (s : string) : option (string * string) :=
  match s with
  | EmptyString => None
  | String c rest =>
      if decide (c = Ascii.ascii_of_nat 34) then Some (EmptyString, rest)
      else if decide (c = Ascii.ascii_of_nat 92) then None
      else '(value, after) ← readQuoted rest; Some (String c value, after)
  end.

Definition readString (s : string) : option (string * string) :=
  match skipSpace s with
  | String c rest => if decide (c = Ascii.ascii_of_nat 34) then readQuoted rest else None
  | EmptyString => None
  end.

(** The members of an object after its opening brace. *)
Fixpoint readMembers (fuel : nat) (s : string) (fields : list (string * string))
  : option (list (string * string)) :=
  match fuel with
  | O => None
  | S fuel =>
      '(key, afterKey) ← readString s;
      match skipSpace afterKey with
      | String c afterColon =>
          if decide (c = colon) then
            '(value, afterValue) ← readString afterColon;
            match skipSpace afterValue with
            | String c' rest =>
                if decide (c' = Ascii.ascii_of_nat 44) then
                  readMembers fuel rest (fields ++ [(key, value)])
                else if decide (c' = Ascii.ascii_of_nat 125) then
                  if decide (skipSpace rest = "") then Some (fields ++ [(key, value)])
                  else None
                else None
            | EmptyString => None
            end
          else None
      | EmptyString => None
      end
  end.

Definition readFlow (s : string) : Node :=
  match skipSpace s with
  | String c rest =>
      if decide (c = Ascii.ascii_of_nat 34) then
        match readQuoted rest with
        | Some (value, after) =>
            if decide (skipSpace after = "") then scalarNode value else otherNode
        | None => otherNode
        end
      else if decide (c = Ascii.ascii_of_nat 123) then
        match readMembers (String.length rest) rest [] with
        | Some fields => mappingNode fields
        | None => otherNode
        end
      else otherNode
  | EmptyString => otherNode
  end.

(** The lines [key: value] of a block mapping. *)
Fixpoint readLines (lines : list string) : option (list (string * string)) :=
  match lines with
  | [] => Some []
  | line :: rest =>
      if decide (skipSpace line = "") then readLines rest
      else
        let '(key, value, found) := strings_Cut line colon in
        if found then fields ← readLines rest; Some ((key, skipSpace value) :: fields)
        else None
  end.

Definition readBlock (s : string) : Node :=
  match readLines (splitOn (Ascii.ascii_of_nat 10) s) with
  | Some (field :: fields) => mappingNode (field :: fields)
  | _ => otherNode
  end.

Definition sampleReadDocument (enc : Encoding) (data : string) : Node :=
  match enc with
  | encodingJSON => readFlow data
  | encodingYAML =>
      match skipSpace data with
      | String c _ =>
          if decide (c = Ascii.ascii_of_nat 34 ∨ c = Ascii.ascii_of_nat 123)
          then readFlow data else readBlock data
      | EmptyString => otherNode
      end
  end.

(** ** Script, patch state and preprocessing

    What the code takes from its collaborators is a variable of the
    section: the escaping done by [fmt.Sprintf] for the verb [%q], the cache
    key constant, the secrets option of a generator and the fetch of the
    patched sources. *)

Section Preprocessing.

(** The text [strconv.Quote] puts between the quotes. *)
Variable strconvEscape : string → string.

Variable GomodCacheKey : string.

Variable withGomodSecretsAndSockets : SourceGenerator → option RunOption.

(** The states of the named sources with their declared patches applied,
    for the names the filter accepts. *)
Variable getPatchedSources :
  Spec → SourceOpts → State → (string → bool) → list ConstraintsOpt →
  gmap string State.

(** [fmt.Sprintf] with the format [%q] on a string. *)
Definition Sprintf_q (s : string) : string := quoted (strconvEscape s).

(** The git configuration section of [buildGomodPatchScript]: the text for
    the template's [GitConfig] and the values of [GoPrivate] and
    [GoInsecure]. *)
Definition gitConfigSection (Auth : gmap string GomodGitAuth)
  : string * string * string :=
  let sortedHosts := SortMapKeys Auth in
  if decide (0 < length sortedHosts) then
    let '(gitConfig, goPrivateHosts) := hostLoop Auth sortedHosts "" [] in
    let joined := strings_Join goPrivateHosts "," in
    (gitConfig, Sprintf_q joined, Sprintf_q joined)
  else ("", "", "").

(** The template data assembled by [buildGomodPatchScript]; [g] is the
    generator's [Gomod], which the Go code dereferences. *)
Definition gomodScriptData (editCmd : string) (paths : list string)
    (gen : SourceGenerator) (g : GeneratorGomod)
    (sourceName patchOutputDir : string) : scriptTemplateData :=
  let workDir := "/work/src" in
  let patchPath := filepath_Join [patchOutputDir; gomodPatchFilename] in
  let joinedWorkDir := filepath_Join [workDir; sourceName; Subpath gen] in
  let '(gitConfig, goPrivate, goInsecure) := gitConfigSection (Auth g) in
  let modules := map (buildModuleInfo joinedWorkDir (Subpath gen)) paths in
  {| PatchPath := patchPath;
     EditCmd := editCmd;
     GitConfig := gitConfig;
     GoPrivate := goPrivate;
     GoInsecure := goInsecure;
     GoModFilename := gomodFilename;
     GoSumFilename := gosumFilename;
     Modules := modules |}.

(** The embedded template parses and executes on every such data, so the
    error result is always nil. *)
Definition buildGomodPatchScript (editCmd : string) (paths : list string)
    (gen : SourceGenerator) (g : GeneratorGomod)
    (sourceName patchOutputDir : string) : string * option error :=
  (executeTemplate (gomodScriptData editCmd paths gen g sourceName patchOutputDir),
   None).

Definition generateGomodPatchStateForSource (sourceName : string)
    (gen : SourceGenerator) (baseState worker : State)
    (credHelper : option RunOption) (opts : list ConstraintsOpt)
  : option State * option error :=
  match gomodEditCommand (Gomod gen) with
  | (_, Some err) => (None, Some err)
  | (editCmd, None) =>
      if decide (editCmd = "") then (None, None)
      else
        match Gomod gen with
        | None => (None, None) (* not reached: a nil Gomod compiles to no command *)
        | Some g =>
            let paths := if decide (length (Paths g) = 0) then ["."] else Paths g in
            let workDir := "/work/src" in
            let proxyPath := "/go/pkg/mod" in
            let patchOutputDir := "/tmp/patch-work" in
            match buildGomodPatchScript editCmd paths gen g sourceName patchOutputDir with
            | (_, Some err) => (None, Some err)
            | (scriptContent, None) =>
                let scriptState :=
                  File Scratch (Mkfile "/gomod-patch.sh" 493 scriptContent) opts in
                let patchOutput := Scratch in
                let runOpts :=
                  [ Args ["/gomod-patch.sh"];
                    AddMount "/gomod-patch.sh" scriptState [SourcePath "/gomod-patch.sh"];
                    AddMount workDir baseState [];
                    AddMount proxyPath Scratch
                      [AsPersistentCacheDir GomodCacheKey CacheMountShared];
                    AddMount patchOutputDir patchOutput [];
                    AddEnv "GOPATH" "/go";
                    AddEnv "TMP_GOMODCACHE" proxyPath;
                    AddEnv "GIT_SSH_COMMAND"
                      "ssh -o UserKnownHostsFile=/dev/null -o StrictHostKeyChecking=no";
                    WithConstraints opts;
                    ProgressGroup ("Generate gomod patch for source: " +:+ sourceName) ] in
                let runOpts :=
                  match credHelper with
                  | Some helper => runOpts ++ [helper]
                  | None => runOpts
                  end in
                let runOpts :=
                  match withGomodSecretsAndSockets gen with
                  | Some secretOpt => runOpts ++ [secretOpt]
                  | None => runOpts
                  end in
                let patchMount := RunAddMount worker runOpts patchOutputDir patchOutput in
                let patchSourceName := gomodPatchSourcePrefix +:+ sourceName in
                let finalPatchPath :=
                  filepath_Join ["/"; patchSourceName; gomodPatchFilename] in
                let patchSt :=
                  File
                    (File Scratch
                       (Mkdir (filepath_Join ["/"; patchSourceName]) 493 true) opts)
                    (Copy patchMount ("/" +:+ gomodPatchFilename) finalPatchPath)
                    opts in
                (Some patchSt, None)
            end
        end
  end.

(** The inner loop of [preprocessGomodEdits], over the generators of one
    source. The spec is threaded through; an error ends the pass and leaves
    the registrations made so far in place. *)
Fixpoint preprocessGenerators (s : Spec) (sourceName : string)
    (baseState worker : State) (credHelper : option RunOption)
    (opts : list ConstraintsOpt) (gens : list (option SourceGenerator))
  : Spec * option error :=
  match gens with
  | [] => (s, None)
  | None :: rest =>
      preprocessGenerators s sourceName baseState worker credHelper opts rest
  | Some gen :: rest =>
      match Gomod gen with
      | None =>
          preprocessGenerators s sourceName baseState worker credHelper opts rest
      | Some _ =>
          match generateGomodPatchStateForSource sourceName gen baseState worker
                  credHelper opts with
          | (_, Some err) =>
              (s, Some (errors_Wrap err
                          ("failed to generate gomod patch state for source " +:+
                           sourceName)))
          | (None, None) =>
              preprocessGenerators s sourceName baseState worker credHelper opts rest
          | (Some patchSt, None) =>
              preprocessGenerators (registerGomodPatch s sourceName patchSt)
                sourceName baseState worker credHelper opts rest
          end
      end
  end.

(** The outer loop, over the gomod sources in the order [range] yields
    them. *)
Fixpoint preprocessSources (s : Spec) (baseSources : gmap string State)
    (worker : State) (credHelper : option RunOption)
    (opts : list ConstraintsOpt) (order : list (string * Source))
  : Spec * option error :=
  match order with
  | [] => (s, None)
  | (sourceName, src) :: rest =>
      match baseSources !! sourceName with
      | None => preprocessSources s baseSources worker credHelper opts rest
      | Some baseState =>
          match preprocessGenerators s sourceName baseState worker credHelper
                  opts (Generate src) with
          | (s, Some err) => (s, Some err)
          | (s, None) => preprocessSources s baseSources worker credHelper opts rest
          end
      end
  end.

(** Go leaves the iteration order of a map open: [order] is the order in
    which this run of [range gomodSources] yields the entries. *)
Definition rangeOrder {V : Type} (m : gmap string V) (order : list (string * V))
  : Prop :=
  order ≡ₚ map_to_list m.

Definition preprocessGomodEdits (s : Spec) (sOpt : SourceOpts) (worker : State)
    (opts : list ConstraintsOpt) (order : list (string * Source))
  : Spec * option error :=
  let gomodSrcs := gomodSources s in
  if decide (size gomodSrcs = 0) then (s, None)
  else
    let baseSources :=
      getPatchedSources s sOpt worker
        (λ name, bool_decide (is_Some (gomodSrcs !! name))) opts in
    match GitCredHelperOpt sOpt with
    | (_, Some err) =>
        (s, Some (errors_Wrap err "failed to get git credential helper"))
    | (credHelper, None) =>
        preprocessSources s baseSources worker credHelper opts order
    end.

Definition Preprocess (s : Spec) (sOpt : SourceOpts) (worker : State)
    (opts : list ConstraintsOpt) (order : list (string * Source))
  : Spec * option error :=
  match preprocessGomodEdits s sOpt worker opts order with
  | (s, Some err) => (s, Some (errors_Wrap err "failed to preprocess gomod edits"))
  | (s, None) => (s, None)
  end.


(** ** Sample inputs *)

Definition gomodWith (edits : GomodEdits) : GeneratorGomod :=
  {| Paths := []; Auth := ∅; Edits := Some edits |}.

Definition noEdits : GomodEdits := {| Replace := []; Require := [] |}.

Definition sampleEdits : GomodEdits :=
  {| Replace := [ {| Original := "old"; Update := "new" |} ];
     Require := [ {| Module := "mod"; Version := "mod@ver" |} ] |}.

(** The edit set of the validation test with several errors. *)
Definition invalidEdits : GomodEdits :=
  {| Replace := [ {| Original := ""; Update := "" |} ];
     Require := [ {| Module := ""; Version := "v1.8.0" |} ] |}.

(** ** Notions of the specification *)

(** The flags of an edit set: one per Replace in declared order, then one
    per Require in declared order. *)
Definition editFlags (edits : GomodEdits) : list string :=
  map (λ r, "-replace=" +:+ (GomodReplace_goModEditArg r).1) (Replace edits) ++
  map (λ r, "-require=" +:+ (GomodRequire_goModEditArg r).1) (Require edits).

(** Every directive of the edit set renders. *)
Definition rendersAll (edits : GomodEdits) : Prop :=
  Forall (λ r, (GomodReplace_goModEditArg r).2 = None) (Replace edits) ∧
  Forall (λ r, (GomodRequire_goModEditArg r).2 = None) (Require edits).

(** The directives in the order the compiler renders them. *)
Definition renderOrder (edits : GomodEdits) : list (GomodReplace + GomodRequire) :=
  map inl (Replace edits) ++ map inr (Require edits).

Definition renderDirective (d : GomodReplace + GomodRequire) : string * option error :=
  match d with
  | inl r => GomodReplace_goModEditArg r
  | inr r => GomodRequire_goModEditArg r
  end.

(** An edit set without directives; a nil edit set counts as one. *)
Definition noDirectives (g : GeneratorGomod) : Prop :=
  ∀ edits, Edits g = Some edits → Replace edits = [] ∧ Require edits = [].

(** The first error met when the directives are rendered in order. *)
Fixpoint firstRenderError (ds : list (GomodReplace + GomodRequire)) : option error :=
  match ds with
  | [] => None
  | d :: rest =>
      match (renderDirective d).2 with
      | Some err => Some err
      | None => firstRenderError rest
      end
  end.

(** The result carries the render error inside a wrapper that names the
    failing directive. *)
Definition wrapsRenderError (result : option error) (err : error) : Prop :=
  ∃ identity, result = Some (errors_Wrap err identity).

(** The render error of the sample Replace with two empty sides. *)
Definition emptyReplaceError : error :=
  errors_Join [errors_New "old must be non-empty"; errors_New "new must be non-empty"].

(** A mapping gives no value to a field. *)
Definition fieldAbsent (fields : list (string * string)) (name : string) : Prop :=
  ∀ value, (name, value) ∉ fields.

(** The host part of a configured host: the text before its first colon. *)
Definition hostOnly (host : string) : string := (strings_Cut host colon).1.1.

(** The line the script gets for a host of the mapping. *)
Definition hostLine (Auth : gmap string GomodGitAuth) (host : string) : string :=
  gitConfigLine (default zeroGomodGitAuth (Auth !! host)) host.

(** A host carries credential configuration: SSH, a token or a header. *)
Definition carriesCredentials (auth : GomodGitAuth) : bool :=
  bool_decide (SSH auth ≠ None ∨ Token auth ≠ "" ∨ Header auth ≠ "").

(** The configured hosts that carry credential configuration, sorted. *)
Definition credentialHosts (Auth : gmap string GomodGitAuth) : list string :=
  filter (λ host, carriesCredentials (default zeroGomodGitAuth (Auth !! host)) = true)
    (SortMapKeys Auth).

(** What the script shows of a host's credentials: the SSH user name when
    SSH is configured, and whether a token and a header are set. The key
    reference, the token and the header themselves are left out. *)
Definition credentialKind (auth : GomodGitAuth) : option string * bool * bool :=
  (Username <$> SSH auth, bool_decide (Token auth ≠ ""), bool_decide (Header auth ≠ "")).

(** Two mappings configure the same hosts with the same kinds. *)
Definition sameCredentialKinds (Auth Auth' : gmap string GomodGitAuth) : Prop :=
  credentialKind <$> Auth = credentialKind <$> Auth'.

(** The internal source that wraps a patch state. *)
Definition patchSource (patchSt : State) : Source :=
  {| LLB := Some (newSourceLLB patchSt); Generate := [] |}.

(** The patch state a generator of the list yields, if any. *)
Definition generatorState (sourceName : string) (baseState worker : State)
    (credHelper : option RunOption) (opts : list ConstraintsOpt)
    (gen : option SourceGenerator) : option State :=
  gen ≫= λ gen,
    (generateGomodPatchStateForSource sourceName gen baseState worker credHelper opts).1.

(** The error a generator of the list fails with, if any. *)
Definition generatorError (sourceName : string) (baseState worker : State)
    (credHelper : option RunOption) (opts : list ConstraintsOpt)
    (gen : option SourceGenerator) : option error :=
  gen ≫= λ gen,
    (generateGomodPatchStateForSource sourceName gen baseState worker credHelper opts).2.

(** The registrations of a list of patch states for one source, in order. *)
Definition registerAll (s : Spec) (sourceName : string) (patchStates : list State)
  : Spec :=
  foldl (λ s patchSt, registerGomodPatch s sourceName patchSt) s patchStates.

(** The patch states of all generators of a source, in order; none when the
    source has no base state. *)
Definition sourceStates (baseSources : gmap string State) (worker : State)
    (credHelper : option RunOption) (opts : list ConstraintsOpt)
    (sourceName : string) (src : Source) : list State :=
  match baseSources !! sourceName with
  | None => []
  | Some baseState =>
      omap (generatorState sourceName baseState worker credHelper opts) (Generate src)
  end.

(** A gomod generator with a non-empty edit set whose directives render. *)
Definition hasRenderedEdits (gen : option SourceGenerator) : Prop :=
  ∃ gen' g edits,
    gen = Some gen' ∧ Gomod gen' = Some g ∧ Edits g = Some edits ∧
    (Replace edits ≠ [] ∨ Require edits ≠ []) ∧ rendersAll edits.

(** A generator that is nil, not a gomod generator, or has no directives. *)
Definition hasNoDirectives (gen : option SourceGenerator) : Prop :=
  ∀ gen' g, gen = Some gen' → Gomod gen' = Some g → noDirectives g.

(** ** More sample inputs *)

(** The generator of the end-to-end example of the spec. *)
Definition requireGenerator : SourceGenerator :=
  {| Subpath := "";
     Gomod := Some (gomodWith
       {| Replace := [];
          Require := [ {| Module := "example.com/a";
                          Version := "example.com/a@v1.2.0" |} ] |}) |}.

Definition replaceGenerator : SourceGenerator :=
  {| Subpath := "tools";
     Gomod := Some (gomodWith
       {| Replace := [ {| Original := "example.com/b";
                          Update := "example.com/fork/b@v0.3.1" |} ];
          Require := [] |}) |}.

Definition emptyGenerator : SourceGenerator :=
  {| Subpath := ""; Gomod := Some (gomodWith noEdits) |}.

(** A patch written by hand, present before preprocessing. *)
Definition manualPatch : PatchSpec :=
  {| PatchSource := "fixes"; Strip := None; Path := "fix.patch" |}.

Definition specWith (gens : list (option SourceGenerator)) : Spec :=
  {| Sources := {[ "src" := {| LLB := None; Generate := gens |} ]};
     Patches := Some {[ "src" := [manualPatch] ]} |}.

Definition sampleSourceOpts : SourceOpts :=
  {| GitCredHelperOpt := (Some (opaqueRunOption "git-credential-helper"), None) |}.

Definition sampleWorker : State := opaqueState "worker".

Definition sampleBase : State := opaqueState "patched:src".

(** A fetch of the patched sources that yields an opaque state for every
    accepted source of the spec. *)
Definition samplePatchedSources (s : Spec) (sOpt : SourceOpts) (worker : State)
    (filter : string → bool) (opts : list ConstraintsOpt) : gmap string State :=
  map_imap (λ name _, if filter name then Some (opaqueState ("patched:" +:+ name))
                      else None) (Sources s).

Definition sampleSecrets (gen : SourceGenerator) : option RunOption := None.

(** A host without credentials, and two mappings that differ in the
    credentials only. *)
Definition uncredentialedAuth : gmap string GomodGitAuth :=
  {[ "example.com" := zeroGomodGitAuth ]}.

(** A host with a port and a token beside a host without credentials. *)
Definition mixedAuth : gmap string GomodGitAuth :=
  {[ "git.example.com:8443" := {| Header := ""; Token := "t0"; SSH := None |};
     "example.com" := zeroGomodGitAuth ]}.

Definition authWith (key token header : string) : gmap string GomodGitAuth :=
  {[ "git.example.com:2222" :=
       {| Header := ""; Token := ""; SSH := Some {| ID := key; Username := "" |} |};
     "example.com" := {| Header := ""; Token := token; SSH := None |};
     "internal.example.org" := {| Header := header; Token := ""; SSH := None |} ]}.

Definition gomodWithAuth (Auth : gmap string GomodGitAuth) : GeneratorGomod :=
  {| Paths := ["."]; Auth := Auth; Edits := Some sampleEdits |}.

(** The check of the validation test: the error is non-nil and its text
    contains the expected part. *)
Definition errorContains (err : option error) (sub : string) : bool :=
  match err with
  | Some e => strings_Contains (Error e) sub
  | None => false
  end.

Definition generatorWith (edits : GomodEdits) : SourceGenerator :=
  {| Subpath := ""; Gomod := Some (gomodWith edits) |}.

(** The row of TestGomodRequireUnmarshal with a compact string whose version
    has no [@]. *)
Definition unpinnedRequireTest : TestGomodRequireUnmarshal.test :=
  {| TestGomodRequireUnmarshal.name := "invalid string format - no @version";
     TestGomodRequireUnmarshal.input := quoted "github.com/stretchr/testify:v1.8.0";
     TestGomodRequireUnmarshal.unmarshal := encodingYAML;
     TestGomodRequireUnmarshal.expectErr := true;
     TestGomodRequireUnmarshal.expectedModule := "";
     TestGomodRequireUnmarshal.expectedVersion := "" |}.

(** ** Internal LLB sources

    The fetch options as far as [SourceLLB] reads them. *)
Record fetchOptions : Type := {
  Rename : string;
  Constraints : list ConstraintsOpt;
}.

(** The state [toState] returns: the stored state itself, or a scratch
    state into which the stored state is copied, with the fetch options as
    copy option. *)
Inductive fetchedState : Type :=
| storedState (st : State)
| copiedState (input : State) (src dest : string) (copyOpt : fetchOptions)
    (constraints : list ConstraintsOpt).

Definition SourceLLB_IsDir (s : SourceLLB) : bool := false.

Definition SourceLLB_validate (s : SourceLLB) (opt : fetchOptions) : option error :=
  None.

Definition SourceLLB_toState (s : SourceLLB) (opt : fetchOptions) : fetchedState :=
  if decide (Rename opt ≠ "" ∧ Rename opt ≠ "/") then
    copiedState (state s) "/patch" ("/" +:+ Rename opt) opt (Constraints opt)
  else storedState (state s).

Definition SourceLLB_toMount (s : SourceLLB) (opt : fetchOptions)
  : fetchedState * list MountOption :=
  let st := SourceLLB_toState s opt in
  if decide (Rename opt ≠ "") then (st, [SourcePath (Rename opt)])
  else (st, []).

(** ** Notions for the properties of the pass *)

(** The edit set of a generator of the list, if it has one. *)
Definition editsOf (gen : option SourceGenerator) : option GomodEdits :=
  match gen with
  | Some gen =>
      match Gomod gen with
      | Some g => Edits g
      | None => None
      end
  | None => None
  end.

(** Every directive of the generator renders; a generator without edit set
    has none. *)
Definition rendersGenerator (gen : option SourceGenerator) : Prop :=
  ∀ edits, editsOf gen = Some edits → firstRenderError (renderOrder edits) = None.

(** The second spec extends the first: each patch list has grown by gomod
    patch references only, and the sources agree except at the patch source
    keys of the given names, where a source may have been stored. *)
Definition extendsSpec (names : list string) (s s' : Spec) : Prop :=
  (∀ name, ∃ n,
     patchesOf s' name = patchesOf s name ++ replicate n (gomodPatchSpec name)) ∧
  (∀ key, (∀ name, name ∈ names → key ≠ patchSourceNameOf name) →
     Sources s' !! key = Sources s !! key) ∧
  (∀ key, is_Some (Sources s !! key) → is_Some (Sources s' !! key)).

(** Two sources with gomod generators, for passes in both orders. *)
Definition twoSourceSpec : Spec :=
  {| Sources := {[ "alpha" := {| LLB := None; Generate := [Some requireGenerator] |};
                   "beta" := {| LLB := None; Generate := [Some replaceGenerator] |} ]};
     Patches := None |}.

Definition alphaFirst : list (string * Source) :=
  [("alpha", {| LLB := None; Generate := [Some requireGenerator] |});
   ("beta", {| LLB := None; Generate := [Some replaceGenerator] |})].

Definition betaFirst : list (string * Source) :=
  [("beta", {| LLB := None; Generate := [Some replaceGenerator] |});
   ("alpha", {| LLB := None; Generate := [Some requireGenerator] |})].

Definition invalidGenerator : SourceGenerator := generatorWith invalidEdits.

Definition failingSourceOpts : SourceOpts :=
  {| GitCredHelperOpt := (None, Some (errors_New "no credential helper")) |}.

(** ** Properties of the edit command compiler *)

Lemma replaceArgs_ok rs args :
  Forall (λ r, (GomodReplace_goModEditArg r).2 = None) rs →
  replaceArgs rs args =
    (args ++ map (λ r, "-replace=" +:+ (GomodReplace_goModEditArg r).1) rs, None).
Proof.
  intros Hok. revert args.
  induction Hok as [|r rs Hr _ IH]; intros args; simpl.
  - by rewrite app_nil_r.
  - destruct (GomodReplace_goModEditArg r) as [arg [err|]]; [done|].
    by rewrite IH, <- app_assoc.
Qed.

Lemma requireArgs_ok rs args :
  Forall (λ r, (GomodRequire_goModEditArg r).2 = None) rs →
  requireArgs rs args =
    (args ++ map (λ r, "-require=" +:+ (GomodRequire_goModEditArg r).1) rs, None).
Proof.
  intros Hok. revert args.
  induction Hok as [|r rs Hr _ IH]; intros args; simpl.
  - by rewrite app_nil_r.
  - destruct (GomodRequire_goModEditArg r) as [arg [err|]]; [done|].
    by rewrite IH, <- app_assoc.
Qed.

Lemma gomodEditCommand_noDirectives g :
  noDirectives g → gomodEditCommand (Some g) = ("", None).
Proof.
  intros Hno. unfold gomodEditCommand.
  destruct (Edits g) as [edits|] eqn:He; [|done].
  destruct (Hno edits He) as [-> ->]. done.
Qed.

(** C2: for every edit set whose directives all render, the compiled
    command is the one string [go mod edit] followed by a space-separated
    flag per Replace in declared order and then a flag per Require in
    declared order, whatever the interleaving of the declarations; no error
    is returned. The edit set has at least one directive: the empty one is
    the case of C3, where the command is the empty string. *)
Theorem gomodEditCommand_flags (g : GeneratorGomod) (edits : GomodEdits) :
  Edits g = Some edits →
  rendersAll edits →
  Replace edits ≠ [] ∨ Require edits ≠ [] →
  gomodEditCommand (Some g) =
    ("go mod edit " +:+ strings_Join (editFlags edits) " ", None).
Proof.
  intros He [Hrep Hreq] Hne. unfold gomodEditCommand. rewrite He.
  rewrite (replaceArgs_ok _ _ Hrep). simpl.
  rewrite (requireArgs_ok _ _ Hreq).
  fold (editFlags edits).
  case_decide as Hlen; [|done].
  exfalso. unfold editFlags in Hlen.
  rewrite length_app, !length_map in Hlen.
  destruct Hne as [Hne|Hne]; [destruct (Replace edits)|destruct (Require edits)];
    simpl in *; try done; lia.
Qed.

Lemma firstRenderError_app ds1 ds2 :
  firstRenderError (ds1 ++ ds2) =
    match firstRenderError ds1 with
    | Some err => Some err
    | None => firstRenderError ds2
    end.
Proof.
  induction ds1 as [|d ds1 IH]; simpl; [done|].
  by destruct (renderDirective d).2.
Qed.

Lemma replaceArgs_first rs args :
  replaceArgs rs args =
    match firstRenderError (map inl rs) with
    | Some err => ([], Some err)
    | None =>
        (args ++ map (λ r, "-replace=" +:+ (GomodReplace_goModEditArg r).1) rs, None)
    end.
Proof.
  revert args. induction rs as [|r rs IH]; intros args; simpl.
  - by rewrite app_nil_r.
  - destruct (GomodReplace_goModEditArg r) as [arg [err|]]; simpl; [done|].
    rewrite IH. destruct (firstRenderError _); [done|]. by rewrite <- app_assoc.
Qed.

Lemma requireArgs_first rs args :
  requireArgs rs args =
    match firstRenderError (map inr rs) with
    | Some err => ([], Some err)
    | None =>
        (args ++ map (λ r, "-require=" +:+ (GomodRequire_goModEditArg r).1) rs, None)
    end.
Proof.
  revert args. induction rs as [|r rs IH]; intros args; simpl.
  - by rewrite app_nil_r.
  - destruct (GomodRequire_goModEditArg r) as [arg [err|]]; simpl; [done|].
    rewrite IH. destruct (firstRenderError _); [done|]. by rewrite <- app_assoc.
Qed.

(** C6 (amended): when a directive fails to render, the compiler returns the
    first render error met, rendering the Replace directives before the
    Require directives, together with the empty command; the error is the
    one the render step made, with nothing wrapped around it. *)
Theorem gomodEditCommand_first_render_error
    (g : GeneratorGomod) (edits : GomodEdits) (err : error) :
  Edits g = Some edits →
  firstRenderError (renderOrder edits) = Some err →
  gomodEditCommand (Some g) = ("", Some err).
Proof.
  intros He Hfirst. unfold gomodEditCommand. rewrite He.
  unfold renderOrder in Hfirst. rewrite firstRenderError_app in Hfirst.
  rewrite replaceArgs_first.
  destruct (firstRenderError (map inl (Replace edits))) as [err'|].
  - by simplify_eq.
  - rewrite requireArgs_first, Hfirst. done.
Qed.

(** ** Properties of validation and decoding *)

Lemma joinViolations_None msgs : joinViolations msgs = None ↔ msgs = [].
Proof. by destruct msgs. Qed.

Lemma joinViolations_Some msgs err :
  joinViolations msgs = Some err → err = errors_Join (map errors_New msgs).
Proof.
  destruct msgs as [|msg msgs]; intros Heq; [discriminate Heq|].
  by injection Heq as <-.
Qed.

Lemma requireViolations_nil r :
  requireViolations r = [] ↔
  Module r ≠ "" ∧ strings_Contains (Version r) "@" = true.
Proof.
  unfold requireViolations.
  destruct (decide (Module r = "")), (strings_Contains (Version r) "@");
    simpl; split; try done; intros [? ?]; done.
Qed.

Lemma replaceViolations_nil r :
  replaceViolations r = [] ↔ Original r ≠ "" ∧ Update r ≠ "".
Proof.
  unfold replaceViolations.
  destruct (decide (Original r = "")), (decide (Update r = ""));
    simpl; split; try done; intros [? ?]; done.
Qed.

Lemma elem_of_concat {A} (x : A) (l : list A) (ls : list (list A)) :
  x ∈ l → l ∈ ls → x ∈ concat ls.
Proof.
  intros Hx Hl. induction Hl as [l ls|l l' ls _ IH]; simpl;
    apply elem_of_app; auto.
Qed.

Lemma concat_nil_Forall {A} (ls : list (list A)) :
  concat ls = [] ↔ Forall (λ l, l = []) ls.
Proof.
  induction ls as [|l ls IH]; simpl.
  - split; [constructor|done].
  - rewrite Forall_cons, <- IH. split.
    + by intros [-> ->]%app_eq_nil.
    + by intros [-> ->].
Qed.

(** C4: validation of an edit set looks at every Require and every Replace
    and reports all violations in one error: the error is nil exactly when
    every directive is valid, and otherwise it is one joined error holding
    the message of every violation of every directive. On the set with a
    Require of empty module and a Replace with both sides empty the error is
    non-nil, reports the violations of both directives, and its text names
    the failure classes. The validation of a gomod generator is the
    validation of its edit set. *)
Theorem GomodEdits_validate_aggregates (edits : GomodEdits) :
  (GomodEdits_validate edits = None ↔
     (∀ r, r ∈ Require edits → requireViolations r = []) ∧
     (∀ r, r ∈ Replace edits → replaceViolations r = [])) ∧
  (∀ err, GomodEdits_validate edits = Some err →
     ∃ errs, err = errors_Join errs ∧
       (∀ r msg, r ∈ Require edits → msg ∈ requireViolations r →
          errors_New msg ∈ errs) ∧
       (∀ r msg, r ∈ Replace edits → msg ∈ replaceViolations r →
          errors_New msg ∈ errs)) ∧
  (∀ r msg, (r ∈ Require edits ∧ msg ∈ requireViolations r) →
     is_Some (GomodEdits_validate edits)) ∧
  (∀ r msg, (r ∈ Replace edits ∧ msg ∈ replaceViolations r) →
     is_Some (GomodEdits_validate edits)) ∧
  (∀ gen g, Gomod gen = Some g → Edits g = Some edits →
     SourceGenerator_Validate gen = GomodEdits_validate edits) ∧
  GomodEdits_validate invalidEdits =
    Some (errors_Join
            [errors_New "module must be non-empty";
             errors_New "version must include @version";
             errors_New "old must be non-empty";
             errors_New "new must be non-empty"]) ∧
  (∀ err, GomodEdits_validate invalidEdits = Some err →
     strings_Contains (Error err) "module must be non-empty" = true ∧
     strings_Contains (Error err) "old must be non-empty" = true).
Proof.
  assert (Hin_req : ∀ r msg, r ∈ Require edits → msg ∈ requireViolations r →
            msg ∈ GomodEdits_violations edits).
  { intros r msg Hr Hmsg. unfold GomodEdits_violations.
    apply elem_of_app. left.
    apply (elem_of_concat _ (requireViolations r)); [done|].
    by apply (list_elem_of_fmap_2 requireViolations). }
  assert (Hin_rep : ∀ r msg, r ∈ Replace edits → msg ∈ replaceViolations r →
            msg ∈ GomodEdits_violations edits).
  { intros r msg Hr Hmsg. unfold GomodEdits_violations.
    apply elem_of_app. right.
    apply (elem_of_concat _ (replaceViolations r)); [done|].
    by apply (list_elem_of_fmap_2 replaceViolations). }
  assert (Hsome : ∀ msg, msg ∈ GomodEdits_violations edits →
            is_Some (GomodEdits_validate edits)).
  { intros msg Hmsg. unfold GomodEdits_validate.
    destruct (GomodEdits_violations edits); [by apply elem_of_nil in Hmsg|].
    by eexists. }
  split_and!.
  - unfold GomodEdits_validate. rewrite joinViolations_None.
    unfold GomodEdits_violations. split.
    + intros [Hreq Hrep]%app_eq_nil.
      apply concat_nil_Forall in Hreq. apply concat_nil_Forall in Hrep.
      rewrite Forall_fmap, Forall_forall in Hreq.
      rewrite Forall_fmap, Forall_forall in Hrep. done.
    + intros [Hreq Hrep].
      assert (concat (map requireViolations (Require edits)) = []) as ->.
      { apply concat_nil_Forall. by rewrite Forall_fmap, Forall_forall. }
      apply concat_nil_Forall. by rewrite Forall_fmap, Forall_forall.
  - intros err Herr. apply joinViolations_Some in Herr.
    exists (map errors_New (GomodEdits_violations edits)).
    split; [done|]. split; intros r msg Hr Hmsg; apply list_elem_of_fmap_2; eauto.
  - intros r msg [Hr Hmsg]. eauto.
  - intros r msg [Hr Hmsg]. eauto.
  - intros gen g Hg He. unfold SourceGenerator_Validate. by rewrite Hg, He.
  - reflexivity.
  - intros err [= <-]. by vm_compute.
Qed.

Lemma strings_Cut_first (sep : ascii) (a b : string) :
  sep ∉ String.list_ascii_of_string a →
  strings_Cut (a +:+ String sep b) sep = (a, b, true).
Proof.
  induction a as [|c a IH]; simpl; intros Hfree.
  - by rewrite decide_True.
  - apply not_elem_of_cons in Hfree as [Hc Ha].
    rewrite decide_False by done. by rewrite IH.
Qed.

Lemma strings_Cut_absent (sep : ascii) (s : string) :
  sep ∉ String.list_ascii_of_string s →
  strings_Cut s sep = (s, EmptyString, false).
Proof.
  induction s as [|c s IH]; simpl; intros Hfree; [done|].
  apply not_elem_of_cons in Hfree as [Hc Hs].
  rewrite decide_False by done. by rewrite IH.
Qed.

Lemma lookupField_absent fields name :
  fieldAbsent fields name → lookupField fields name = None.
Proof.
  unfold fieldAbsent. induction fields as [|[key value] fields IH]; simpl;
    intros Habs; [done|].
  case_decide as Hkey.
  - subst key. destruct (Habs value). by left.
  - apply IH. intros v Hin. apply (Habs v). by right.
Qed.

Lemma fieldValue_absent fields name :
  fieldAbsent fields name → fieldValue fields name = "".
Proof. intros Habs. unfold fieldValue. by rewrite lookupField_absent. Qed.

Lemma strings_Contains_empty (sub : string) :
  sub ≠ "" → strings_Contains "" sub = false.
Proof. by destruct sub. Qed.

Lemma decodeFields_mapping left right fields :
  decodeFields left right (mappingNode fields) =
    if decide (fieldValue fields left = "" ∨ fieldValue fields right = "") then
      inr (errors_New (left +:+ " and " +:+ right +:+ " must be non-empty"))
    else inl (fieldValue fields left, fieldValue fields right).
Proof. done. Qed.

Lemma decodeFields_inl left right n l r :
  decodeFields left right n = inl (l, r) →
  (∃ s, n = scalarNode s ∧ strings_Cut s colon = (l, r, true)) ∨
  (∃ fields, n = mappingNode fields ∧ l = fieldValue fields left ∧
     r = fieldValue fields right ∧ l ≠ "" ∧ r ≠ "").
Proof.
  destruct n as [s|fields|]; [| |done].
  - simpl. destruct (strings_Cut s colon) as [[before after] found] eqn:Hcut.
    destruct found; [|done]. intros [= <- <-]. left. by exists s.
  - rewrite decodeFields_mapping. case_decide as Hempty; [done|].
    intros [= <- <-]. right. exists fields. split_and!; [done..| |];
      intros He; apply Hempty; first [by left|by right].
Qed.

(** C5 (amended): for both directive kinds and both encodings, decoding
    accepts a compact string, cut at its first colon into the two fields, and
    a mapping with the named fields. It fails for a compact string without a
    colon, for a mapping in which a field is missing or empty, for any other
    document, and for a Require whose version has no [@], in a compact string
    as in a mapping. Every other violation surfaces at validation time: a
    compact string with an empty side is decoded, so validation of a decoded
    Require still has the module to reject and validation of a decoded
    Replace both sides. *)
Theorem Unmarshal_accepts_and_rejects
    (readDocument : Encoding → string → Node) (enc : Encoding) (data : string) :
  let required := GomodRequire_Unmarshal readDocument enc data in
  let replaced := GomodReplace_Unmarshal readDocument enc data in
  (∀ a b, readDocument enc data = scalarNode (a +:+ String colon b) →
     colon ∉ String.list_ascii_of_string a →
     replaced = inl {| Original := a; Update := b |} ∧
     (strings_Contains b "@" = true →
        required = inl {| Module := a; Version := b |}) ∧
     (strings_Contains b "@" = false → ∃ err, required = inr err)) ∧
  (∀ s, readDocument enc data = scalarNode s →
     colon ∉ String.list_ascii_of_string s →
     (∃ err, required = inr err) ∧ (∃ err, replaced = inr err)) ∧
  (∀ fields, readDocument enc data = mappingNode fields →
     let module := fieldValue fields "module" in
     let version := fieldValue fields "version" in
     (module ≠ "" → strings_Contains version "@" = true →
        required = inl {| Module := module; Version := version |}) ∧
     (module = "" ∨ strings_Contains version "@" = false →
        ∃ err, required = inr err) ∧
     (fieldAbsent fields "module" ∨ fieldAbsent fields "version" →
        ∃ err, required = inr err)) ∧
  (∀ fields, readDocument enc data = mappingNode fields →
     let old := fieldValue fields "old" in
     let new := fieldValue fields "new" in
     (old ≠ "" → new ≠ "" →
        replaced = inl {| Original := old; Update := new |}) ∧
     (old = "" ∨ new = "" → ∃ err, replaced = inr err) ∧
     (fieldAbsent fields "old" ∨ fieldAbsent fields "new" →
        ∃ err, replaced = inr err)) ∧
  (readDocument enc data = otherNode →
     (∃ err, required = inr err) ∧ (∃ err, replaced = inr err)) ∧
  (∀ r, required = inl r →
     strings_Contains (Version r) "@" = true ∧
     (GomodRequire_validate r = None ↔ Module r ≠ "")) ∧
  (∀ r, replaced = inl r →
     (GomodReplace_validate r = None ↔ Original r ≠ "" ∧ Update r ≠ "")).
Proof.
  intros required replaced. subst required replaced.
  unfold GomodRequire_Unmarshal, GomodReplace_Unmarshal.
  assert (Hrequire : ∀ fields,
            fieldValue fields "module" = "" ∨
            strings_Contains (fieldValue fields "version") "@" = false →
            ∃ err,
              match decodeFields "module" "version" (mappingNode fields) with
              | inl (module, version) =>
                  if strings_Contains version "@" then
                    inl {| Module := module; Version := version |}
                  else inr (errors_New "version must include @version")
              | inr err => inr err
              end = inr err).
  { intros fields Hbad. rewrite decodeFields_mapping.
    case_decide as Hempty; [by eexists|].
    destruct Hbad as [Hm|Hv]; [destruct Hempty; by left|].
    rewrite Hv. by eexists. }
  assert (Hreplace : ∀ fields,
            fieldValue fields "old" = "" ∨ fieldValue fields "new" = "" →
            ∃ err,
              match decodeFields "old" "new" (mappingNode fields) with
              | inl (old, new) => inl {| Original := old; Update := new |}
              | inr err => inr err
              end = inr err).
  { intros fields Hbad. rewrite decodeFields_mapping.
    rewrite decide_True by done. by eexists. }
  split_and!.
  - intros a b -> Hfree. simpl. rewrite strings_Cut_first by done.
    split_and!; [done| |]; intros ->; [done|by eexists].
  - intros s -> Hfree. simpl. rewrite strings_Cut_absent by done.
    split; by eexists.
  - intros fields ->. cbv zeta. split_and!.
    + intros Hm Hv. rewrite decodeFields_mapping.
      rewrite decide_False.
      * by rewrite Hv.
      * intros [?|Hempty]; [done|].
        rewrite Hempty in Hv. by rewrite strings_Contains_empty in Hv.
    + apply Hrequire.
    + intros Habs. apply Hrequire.
      destruct Habs as [Habs|Habs]; apply fieldValue_absent in Habs.
      * by left.
      * right. rewrite Habs. by apply strings_Contains_empty.
  - intros fields ->. cbv zeta. split_and!.
    + intros Ho Hn. rewrite decodeFields_mapping.
      rewrite decide_False; [done|]. by intros [?|?].
    + apply Hreplace.
    + intros Habs. apply Hreplace.
      destruct Habs as [Habs|Habs]; apply fieldValue_absent in Habs;
        first [by left|by right].
  - intros ->. simpl. split; by eexists.
  - intros r.
    destruct (decodeFields "module" "version" (readDocument enc data))
      as [[module version]|err]; [|done].
    destruct (strings_Contains version "@") eqn:Hv; [|done].
    intros [= <-]. simpl. split; [done|].
    unfold GomodRequire_validate. rewrite joinViolations_None, requireViolations_nil.
    simpl. split; [by intros [? _]|by split].
  - intros r.
    destruct (decodeFields "old" "new" (readDocument enc data))
      as [[old new]|err]; [|done].
    intros [= <-]. unfold GomodReplace_validate.
    by rewrite joinViolations_None, replaceViolations_nil.
Qed.

(** ** Properties of the script synthesizer *)

Lemma string_app_cons (c : ascii) (s t : string) :
  String c s +:+ t = String c (s +:+ t).
Proof. reflexivity. Qed.

Lemma string_app_nil_r (s : string) : s +:+ "" = s.
Proof. induction s as [|c s IH]; [done|]. by rewrite string_app_cons, IH. Qed.

Lemma string_app_assoc (s1 s2 s3 : string) :
  (s1 +:+ s2) +:+ s3 = s1 +:+ (s2 +:+ s3).
Proof. induction s1 as [|c s1 IH]; [done|]. by rewrite !string_app_cons, IH. Qed.

Lemma concat_empty_cons (l : string) (ls : list string) :
  String.concat "" (l :: ls) = l +:+ String.concat "" ls.
Proof. destruct ls; simpl; [by rewrite string_app_nil_r|done]. Qed.

Lemma hostLoop_lines Auth hosts gitConfig goPrivateHosts :
  hostLoop Auth hosts gitConfig goPrivateHosts =
    (gitConfig +:+ String.concat "" (map (hostLine Auth) hosts),
     goPrivateHosts ++ map hostOnly hosts).
Proof.
  revert gitConfig goPrivateHosts.
  induction hosts as [|host hosts IH]; intros gitConfig goPrivateHosts.
  - simpl. by rewrite string_app_nil_r, app_nil_r.
  - cbn [hostLoop map]. rewrite IH, concat_empty_cons.
    by rewrite string_app_assoc, <- app_assoc.
Qed.

Lemma elem_of_map_keys {V} (m : gmap string V) (k : string) :
  k ∈ (map_to_list m).*1 ↔ is_Some (m !! k).
Proof.
  rewrite list_elem_of_fmap. split.
  - intros [[k' v] [-> Hin]]. apply elem_of_map_to_list in Hin. by eexists.
  - intros [v Hv]. exists (k, v). split; [done|]. by apply elem_of_map_to_list.
Qed.

Lemma SortMapKeys_sorted {V} (m : gmap string V) :
  StronglySorted String.le (SortMapKeys m).
Proof. apply StronglySorted_merge_sort; apply _. Qed.

Lemma SortMapKeys_perm {V} (m : gmap string V) :
  SortMapKeys m ≡ₚ (map_to_list m).*1.
Proof. apply merge_sort_Permutation. Qed.

Lemma SortMapKeys_elem_of {V} (m : gmap string V) (k : string) :
  k ∈ SortMapKeys m ↔ is_Some (m !! k).
Proof. by rewrite SortMapKeys_perm, elem_of_map_keys. Qed.

Lemma SortMapKeys_NoDup {V} (m : gmap string V) : NoDup (SortMapKeys m).
Proof. rewrite SortMapKeys_perm. apply NoDup_fst_map_to_list. Qed.

(** Sorting any listing of the keys gives the same list. *)
Lemma SortMapKeys_any_order {V} (m : gmap string V) (keys : list string) :
  keys ≡ₚ (map_to_list m).*1 → merge_sort String.le keys = SortMapKeys m.
Proof.
  intros Hperm. apply (StronglySorted_unique String.le).
  - apply StronglySorted_merge_sort; apply _.
  - apply SortMapKeys_sorted.
  - by rewrite merge_sort_Permutation, SortMapKeys_perm.
Qed.

Lemma SortMapKeys_same_keys {V W} (m : gmap string V) (m' : gmap string W) :
  (∀ k, is_Some (m !! k) ↔ is_Some (m' !! k)) →
  SortMapKeys m = SortMapKeys m'.
Proof.
  intros Hkeys. apply (StronglySorted_unique String.le);
    [apply SortMapKeys_sorted..|].
  apply NoDup_Permutation; [apply SortMapKeys_NoDup..|].
  intros k. by rewrite !SortMapKeys_elem_of.
Qed.

Lemma SortMapKeys_nil {V} (m : gmap string V) : SortMapKeys m = [] ↔ m = ∅.
Proof.
  split.
  - intros Hnil. apply map_empty. intros k.
    apply eq_None_not_Some. rewrite <- SortMapKeys_elem_of, Hnil.
    apply not_elem_of_nil.
  - intros ->. unfold SortMapKeys. by rewrite map_to_list_empty.
Qed.

Lemma gitConfigSection_unfold Auth :
  gitConfigSection Auth =
    if decide (Auth = ∅) then ("", "", "")
    else
      let joined := strings_Join (map hostOnly (SortMapKeys Auth)) "," in
      (String.concat "" (map (hostLine Auth) (SortMapKeys Auth)),
       Sprintf_q joined, Sprintf_q joined).
Proof.
  unfold gitConfigSection.
  destruct (decide (Auth = ∅)) as [->|Hne].
  - by rewrite (proj2 (SortMapKeys_nil ∅)).
  - rewrite decide_True.
    + by rewrite hostLoop_lines.
    + destruct (SortMapKeys Auth) eqn:Hs; [|simpl; lia].
      by apply SortMapKeys_nil in Hs.
Qed.

Lemma gomodScriptData_auth editCmd paths gen g sourceName patchOutputDir :
  let d := gomodScriptData editCmd paths gen g sourceName patchOutputDir in
  (GitConfig d, GoPrivate d, GoInsecure d) = gitConfigSection (Auth g).
Proof.
  unfold gomodScriptData. by destruct (gitConfigSection (Auth g)) as [[? ?] ?].
Qed.

Lemma bool_decide_eq_iff (P Q : Prop) `{!Decision P, !Decision Q} :
  bool_decide P = bool_decide Q → (P ↔ Q).
Proof.
  intros Heq. by rewrite <- (bool_decide_spec P), <- (bool_decide_spec Q), Heq.
Qed.

Lemma authKind_kind auth auth' :
  credentialKind auth = credentialKind auth' → authKind auth = authKind auth'.
Proof.
  unfold credentialKind, authKind. intros [= _ Htoken Hheader].
  apply bool_decide_eq_iff in Htoken as [Ht Ht'].
  apply bool_decide_eq_iff in Hheader as [Hh Hh'].
  repeat case_decide; try done; exfalso;
    first [by apply Ht|by apply Ht'|by apply Hh|by apply Hh'].
Qed.

Lemma gitConfigLine_kind auth auth' host :
  credentialKind auth = credentialKind auth' →
  gitConfigLine auth host = gitConfigLine auth' host.
Proof.
  intros Hkind. unfold gitConfigLine. rewrite (authKind_kind _ _ Hkind).
  unfold credentialKind in Hkind. injection Hkind as Hssh _ _.
  destruct (SSH auth) as [ssh|], (SSH auth') as [ssh'|]; simpl in Hssh;
    try discriminate Hssh; [|done].
  injection Hssh as Hssh. by rewrite Hssh.
Qed.

Lemma sameCredentialKinds_lookup Auth Auth' host :
  sameCredentialKinds Auth Auth' →
  credentialKind <$> (Auth !! host) = credentialKind <$> (Auth' !! host).
Proof. intros Hsame. by rewrite <- !lookup_fmap, Hsame. Qed.

Lemma sameCredentialKinds_section Auth Auth' :
  sameCredentialKinds Auth Auth' →
  gitConfigSection Auth = gitConfigSection Auth'.
Proof.
  intros Hsame.
  assert (Hkeys : ∀ k, is_Some (Auth !! k) ↔ is_Some (Auth' !! k)).
  { intros k. rewrite <- !(fmap_is_Some credentialKind).
    by rewrite (sameCredentialKinds_lookup _ _ k Hsame). }
  rewrite !gitConfigSection_unfold.
  assert (Hempty : Auth = ∅ ↔ Auth' = ∅).
  { by rewrite <- !SortMapKeys_nil, (SortMapKeys_same_keys _ _ Hkeys). }
  destruct (decide (Auth = ∅)) as [He|Hne], (decide (Auth' = ∅)) as [He'|Hne'];
    [done|by apply Hempty in He|by apply Hempty in He'|].
  rewrite <- (SortMapKeys_same_keys _ _ Hkeys). cbn zeta.
  assert (Hlines : map (hostLine Auth) (SortMapKeys Auth) =
                   map (hostLine Auth') (SortMapKeys Auth)); [|by rewrite Hlines].
  apply map_ext. intros host.
  unfold hostLine. pose proof (sameCredentialKinds_lookup _ _ host Hsame) as Hk.
  destruct (Auth !! host) as [auth|], (Auth' !! host) as [auth'|];
    simpl in Hk; try discriminate Hk; [|done].
  simpl. apply gitConfigLine_kind. unfold credentialKind in *. congruence.
Qed.

Lemma gomodScriptData_GitConfig editCmd paths gen g sourceName patchOutputDir :
  GitConfig (gomodScriptData editCmd paths gen g sourceName patchOutputDir) =
    String.concat "" (map (hostLine (Auth g)) (SortMapKeys (Auth g))).
Proof.
  pose proof (gomodScriptData_auth editCmd paths gen g sourceName patchOutputDir)
    as Hd. cbn zeta in Hd. rewrite gitConfigSection_unfold in Hd.
  destruct (decide (Auth g = ∅)) as [He|Hne].
  - injection Hd as -> _ _. by rewrite (proj2 (SortMapKeys_nil _) He).
  - cbn zeta in Hd. by injection Hd as -> _ _.
Qed.

(** C7: the synthesized script gets its git configuration lines host by
    host in the sorted order of the keys of the Auth mapping, which is the
    same for every order in which the map hands out its keys: after the text
    before the block the script has the heading of the block and the lines
    of the sorted hosts, one after the other, or nothing when every line is
    empty. A host with SSH configured gets the insteadOf rewrite with its
    user name, or [git] when none is set, a host without SSH gets the
    credential-helper line naming [token] when a token is set and [header]
    when only a header is set, and a host with none of them gets nothing. *)
Theorem gitConfig_follows_sorted_hosts
    (editCmd : string) (paths : list string) (gen : SourceGenerator)
    (g : GeneratorGomod) (sourceName patchOutputDir : string) :
  let hosts := SortMapKeys (Auth g) in
  let d := gomodScriptData editCmd paths gen g sourceName patchOutputDir in
  let lines :=
    String.concat ""
      (map (λ host, gitConfigLine (default zeroGomodGitAuth (Auth g !! host)) host)
         hosts) in
  StronglySorted String.le hosts ∧
  NoDup hosts ∧
  (∀ host, host ∈ hosts ↔ is_Some (Auth g !! host)) ∧
  (∀ keys, keys ≡ₚ (map_to_list (Auth g)).*1 →
     merge_sort String.le keys = hosts) ∧
  buildGomodPatchScript editCmd paths gen g sourceName patchOutputDir =
    (scriptPrologue d +:+
     (if decide (lines = "") then ""
      else newline +:+ "# Setup git authentication" +:+ newline +:+ lines) +:+
     scriptAfterGitConfig d,
     None) ∧
  GitConfig d = lines ∧
  (∀ auth host ssh, SSH auth = Some ssh →
     gitConfigLine auth host =
       "git config --global url." +:+
       quoted ("ssh://" +:+
               (if decide (Username ssh = "") then "git" else Username ssh) +:+
               "@" +:+ host +:+ "/") +:+
       ".insteadOf https://" +:+ hostOnly host +:+ "/" +:+ newline) ∧
  (∀ auth host, SSH auth = None → Token auth ≠ "" →
     gitConfigLine auth host =
       "git config --global credential." +:+
       quoted ("https://" +:+ host +:+ ".helper") +:+ " " +:+
       quoted "/usr/local/bin/frontend credential-helper --kind=token" +:+ newline) ∧
  (∀ auth host, SSH auth = None → Token auth = "" → Header auth ≠ "" →
     gitConfigLine auth host =
       "git config --global credential." +:+
       quoted ("https://" +:+ host +:+ ".helper") +:+ " " +:+
       quoted "/usr/local/bin/frontend credential-helper --kind=header" +:+ newline) ∧
  (∀ auth host, SSH auth = None → Token auth = "" → Header auth = "" →
     gitConfigLine auth host = "").
Proof.
  intros hosts d lines.
  assert (Hconfig : GitConfig d = lines) by apply gomodScriptData_GitConfig.
  split_and!.
  - apply SortMapKeys_sorted.
  - apply SortMapKeys_NoDup.
  - intros host. apply SortMapKeys_elem_of.
  - intros keys. apply SortMapKeys_any_order.
  - unfold buildGomodPatchScript, executeTemplate. fold d.
    fold (scriptAfterGoPrivate d).
    unfold scriptGitConfig, scriptAfterGitConfig. by rewrite Hconfig.
  - done.
  - intros auth host ssh Hssh. unfold gitConfigLine. rewrite Hssh.
    by destruct (decide (Username ssh = "")), (decide (Username ssh ≠ "")).
  - intros auth host Hssh Htoken. unfold gitConfigLine, authKind. rewrite Hssh.
    by rewrite (decide_True (P := Token auth ≠ "")).
  - intros auth host Hssh Htoken Hheader. unfold gitConfigLine, authKind.
    rewrite Hssh. rewrite (decide_False (P := Token auth ≠ "")) by naive_solver.
    by rewrite (decide_True (P := Header auth ≠ "")).
  - intros auth host Hssh Htoken Hheader. unfold gitConfigLine, authKind.
    rewrite Hssh. rewrite (decide_False (P := Token auth ≠ "")) by naive_solver.
    by rewrite (decide_False (P := Header auth ≠ "")) by naive_solver.
Qed.

(** C8 (amended): the synthesized script exports GOPRIVATE and GOINSECURE
    exactly when the Auth mapping has at least one host, whether or not that
    host has SSH, a token or a header set: between the git authentication
    block and the module blocks the script has the two export lines, or
    nothing when the mapping is empty. Both variables are set to the same
    quoted text, the comma-joined list of all hosts of the mapping in sorted
    order, each cut at its first colon; the text depends on the host names
    only. *)
Theorem goPrivate_lists_all_hosts
    (editCmd : string) (paths : list string) (gen : SourceGenerator)
    (g : GeneratorGomod) (sourceName patchOutputDir : string) :
  let d := gomodScriptData editCmd paths gen g sourceName patchOutputDir in
  let joined := strings_Join (map hostOnly (SortMapKeys (Auth g))) "," in
  let exports :=
    newline +:+ "export GOPRIVATE=" +:+ quoted (strconvEscape joined) +:+
    newline +:+ "export GOINSECURE=" +:+ quoted (strconvEscape joined) in
  buildGomodPatchScript editCmd paths gen g sourceName patchOutputDir =
    (scriptPrologue d +:+ scriptGitConfig d +:+
     (if decide (Auth g = ∅) then "" else exports) +:+
     scriptAfterGoPrivate d,
     None) ∧
  (Auth g = ∅ →
     GoPrivate d = "" ∧ GoInsecure d = "" ∧ scriptGoPrivate d = "") ∧
  (Auth g ≠ ∅ →
     GoPrivate d = quoted (strconvEscape joined) ∧
     GoInsecure d = quoted (strconvEscape joined) ∧
     scriptGoPrivate d = exports) ∧
  (scriptGoPrivate d = "" ↔ Auth g = ∅) ∧
  (∀ g', dom (Auth g') = dom (Auth g) →
     let d' := gomodScriptData editCmd paths gen g' sourceName patchOutputDir in
     GoPrivate d' = GoPrivate d ∧ GoInsecure d' = GoInsecure d ∧
     scriptGoPrivate d' = scriptGoPrivate d).
Proof.
  intros d joined exports.
  pose proof (gomodScriptData_auth editCmd paths gen g sourceName patchOutputDir)
    as Hd. cbn zeta in Hd. fold d in Hd.
  rewrite gitConfigSection_unfold in Hd.
  assert (Hempty : Auth g = ∅ →
            GoPrivate d = "" ∧ GoInsecure d = "" ∧ scriptGoPrivate d = "").
  { intros He. rewrite decide_True in Hd by done.
    injection Hd as _ Hp Hi. unfold scriptGoPrivate. by rewrite Hp, Hi. }
  assert (Hfull : Auth g ≠ ∅ →
     GoPrivate d = quoted (strconvEscape joined) ∧
     GoInsecure d = quoted (strconvEscape joined) ∧
     scriptGoPrivate d = exports).
  { intros Hne. rewrite decide_False in Hd by done. cbn zeta in Hd.
    injection Hd as _ Hp Hi. unfold scriptGoPrivate. rewrite Hp, Hi.
    fold joined. by split_and!. }
  split_and!; [|done|done| |].
  - unfold buildGomodPatchScript, executeTemplate. fold d.
    fold (scriptAfterGoPrivate d).
    destruct (decide (Auth g = ∅)) as [He|Hne].
    + by destruct (Hempty He) as (_ & _ & ->).
    + by destruct (Hfull Hne) as (_ & _ & ->).
  - split.
    + intros Hscript. destruct (decide (Auth g = ∅)) as [|Hne]; [done|].
      destruct (Hfull Hne) as (_ & _ & Hs). rewrite Hs in Hscript.
      by destruct newline.
    + intros He. by apply Hempty.
  - intros g' Hdom d'.
    pose proof (gomodScriptData_auth editCmd paths gen g' sourceName patchOutputDir)
      as Hd'. cbn zeta in Hd'. fold d' in Hd'.
    rewrite gitConfigSection_unfold in Hd'.
    assert (Hkeys : ∀ k, is_Some (Auth g' !! k) ↔ is_Some (Auth g !! k)).
    { intros k. by rewrite <- !elem_of_dom, Hdom. }
    assert (He : Auth g' = ∅ ↔ Auth g = ∅).
    { by rewrite <- !SortMapKeys_nil, (SortMapKeys_same_keys _ _ Hkeys). }
    rewrite (SortMapKeys_same_keys _ _ Hkeys) in Hd'.
    assert (Hvalues : GoPrivate d' = GoPrivate d ∧ GoInsecure d' = GoInsecure d).
    { destruct (decide (Auth g = ∅)) as [Hg|Hg], (decide (Auth g' = ∅)) as [Hg'|Hg'];
        [|by apply He in Hg|by apply He in Hg'|].
      - injection Hd as _ -> ->. by injection Hd' as _ -> ->.
      - cbn zeta in Hd, Hd'. injection Hd as _ -> ->. by injection Hd' as _ -> ->. }
    destruct Hvalues as [Hp Hi]. split_and!; [done..|].
    unfold scriptGoPrivate. by rewrite Hp, Hi.
Qed.

(** C9: the script text does not depend on credential material. Two Auth
    mappings that configure the same hosts, with the same SSH user names and
    with a token, respectively a header, set for the same hosts, give the
    same script, whatever the SSH key references, the token values and the
    header values are. *)
Theorem script_independent_of_credentials
    (editCmd : string) (paths : list string) (gen : SourceGenerator)
    (g g' : GeneratorGomod) (sourceName patchOutputDir : string) :
  sameCredentialKinds (Auth g) (Auth g') →
  buildGomodPatchScript editCmd paths gen g sourceName patchOutputDir =
  buildGomodPatchScript editCmd paths gen g' sourceName patchOutputDir.
Proof.
  intros Hsame. unfold buildGomodPatchScript, gomodScriptData.
  by rewrite (sameCredentialKinds_section _ _ Hsame).
Qed.

(** ** Properties of the patch state builder *)

Lemma editFlags_nonempty edits :
  Replace edits ≠ [] ∨ Require edits ≠ [] → editFlags edits ≠ [].
Proof.
  unfold editFlags. intros [Hne|Hne] Hnil; apply app_eq_nil in Hnil as [Hrep Hreq].
  - by destruct (Replace edits).
  - by destruct (Require edits).
Qed.

Lemma gomodEditCommand_some_command g edits :
  Edits g = Some edits →
  rendersAll edits →
  Replace edits ≠ [] ∨ Require edits ≠ [] →
  ∃ cmd, gomodEditCommand (Some g) = (cmd, None) ∧ cmd ≠ "".
Proof.
  intros He [Hrep Hreq] Hne. unfold gomodEditCommand. rewrite He.
  rewrite (replaceArgs_ok _ _ Hrep). simpl. rewrite (requireArgs_ok _ _ Hreq).
  apply editFlags_nonempty in Hne. fold (editFlags edits).
  destruct (editFlags edits) as [|flag flags]; [done|].
  rewrite decide_False by done. eexists. split; [done|].
  intros Hcmd. by rewrite string_app_cons in Hcmd.
Qed.

Lemma generate_no_command sourceName gen baseState worker credHelper opts :
  gomodEditCommand (Gomod gen) = ("", None) →
  generateGomodPatchStateForSource sourceName gen baseState worker credHelper opts =
    (None, None).
Proof. intros Hcmd. unfold generateGomodPatchStateForSource. by rewrite Hcmd. Qed.

Lemma generate_command sourceName gen baseState worker credHelper opts cmd :
  gomodEditCommand (Gomod gen) = (cmd, None) →
  cmd ≠ "" →
  ∃ patchSt,
    generateGomodPatchStateForSource sourceName gen baseState worker credHelper opts =
      (Some patchSt, None).
Proof.
  intros Hcmd Hne. unfold generateGomodPatchStateForSource. rewrite Hcmd.
  rewrite decide_False by done.
  destruct (Gomod gen) as [g|]; [by eexists|].
  simpl in Hcmd. by injection Hcmd as <-.
Qed.

Lemma generate_state_gomod sourceName gen baseState worker credHelper opts patchSt err :
  generateGomodPatchStateForSource sourceName gen baseState worker credHelper opts =
    (Some patchSt, err) →
  is_Some (Gomod gen) ∧ err = None.
Proof.
  unfold generateGomodPatchStateForSource.
  destruct (gomodEditCommand (Gomod gen)) as [cmd [e|]]; [done|].
  case_decide; [done|].
  destruct (Gomod gen) as [g|]; [|done].
  intros [= _ <-]. split; [by eexists|done].
Qed.

Lemma generate_hasNoDirectives sourceName gen baseState worker credHelper opts :
  hasNoDirectives (Some gen) →
  generateGomodPatchStateForSource sourceName gen baseState worker credHelper opts =
    (None, None).
Proof.
  intros Hno. apply generate_no_command.
  destruct (Gomod gen) as [g|] eqn:Hg; [|done].
  apply gomodEditCommand_noDirectives. by apply (Hno gen g).
Qed.

Lemma generate_hasRenderedEdits sourceName gen baseState worker credHelper opts :
  hasRenderedEdits (Some gen) →
  ∃ patchSt,
    generateGomodPatchStateForSource sourceName gen baseState worker credHelper opts =
      (Some patchSt, None).
Proof.
  intros (gen' & g & edits & [= <-] & Hg & He & Hne & Hok).
  destruct (gomodEditCommand_some_command g edits He Hok Hne) as (cmd & Hcmd & Hcmd').
  eapply generate_command; [|done]. by rewrite Hg.
Qed.

(** ** Properties of the registration *)

Lemma patchSourceNameOf_inj : Inj (=) (=) patchSourceNameOf.
Proof. intros a b Hab. by apply (inj (String.app gomodPatchSourcePrefix)) in Hab. Qed.

Lemma register_Sources s sourceName patchSt :
  Sources (registerGomodPatch s sourceName patchSt) =
    <[patchSourceNameOf sourceName := patchSource patchSt]> (Sources s).
Proof. done. Qed.

Lemma register_patchesOf s sourceName patchSt :
  patchesOf (registerGomodPatch s sourceName patchSt) sourceName =
    patchesOf s sourceName ++ [gomodPatchSpec sourceName].
Proof.
  unfold patchesOf, registerGomodPatch. simpl. rewrite lookup_insert_eq. simpl.
  by destruct (Patches s).
Qed.

Lemma register_patchesOf_ne s sourceName patchSt other :
  other ≠ sourceName →
  patchesOf (registerGomodPatch s sourceName patchSt) other = patchesOf s other.
Proof.
  intros Hne. unfold patchesOf, registerGomodPatch. simpl.
  rewrite lookup_insert_ne by done. by destruct (Patches s).
Qed.

Lemma registerAll_snoc s sourceName patchStates patchSt :
  registerAll s sourceName (patchStates ++ [patchSt]) =
    registerGomodPatch (registerAll s sourceName patchStates) sourceName patchSt.
Proof. unfold registerAll. by rewrite foldl_app. Qed.

Lemma registerAll_Sources s sourceName patchStates :
  Sources (registerAll s sourceName patchStates) =
    match last patchStates with
    | Some patchSt => <[patchSourceNameOf sourceName := patchSource patchSt]> (Sources s)
    | None => Sources s
    end.
Proof.
  induction patchStates as [|patchSt patchStates IH] using rev_ind; [done|].
  rewrite registerAll_snoc, register_Sources, last_snoc, IH.
  destruct (last patchStates); [|done]. by rewrite insert_insert_eq.
Qed.

Lemma registerAll_patchesOf s sourceName patchStates :
  patchesOf (registerAll s sourceName patchStates) sourceName =
    patchesOf s sourceName ++
    replicate (length patchStates) (gomodPatchSpec sourceName).
Proof.
  induction patchStates as [|patchSt patchStates IH] using rev_ind.
  - simpl. by rewrite app_nil_r.
  - rewrite registerAll_snoc, register_patchesOf, IH, <- app_assoc.
    rewrite length_app. simpl. by rewrite Nat.add_1_r, replicate_S_end.
Qed.

Lemma registerAll_patchesOf_ne s sourceName patchStates other :
  other ≠ sourceName →
  patchesOf (registerAll s sourceName patchStates) other = patchesOf s other.
Proof.
  intros Hne. induction patchStates as [|patchSt patchStates IH] using rev_ind;
    [done|].
  by rewrite registerAll_snoc, register_patchesOf_ne.
Qed.

(** ** Properties of the preprocessing pass *)

Lemma preprocessGenerators_skip s sourceName baseState worker credHelper opts gen rest :
  generatorState sourceName baseState worker credHelper opts gen = None →
  generatorError sourceName baseState worker credHelper opts gen = None →
  preprocessGenerators s sourceName baseState worker credHelper opts (gen :: rest) =
    preprocessGenerators s sourceName baseState worker credHelper opts rest.
Proof.
  unfold generatorState, generatorError. intros Hst Herr.
  destruct gen as [gen|]; simpl in *; [|done].
  destruct (Gomod gen); [|done].
  destruct (generateGomodPatchStateForSource _ _ _ _ _ _) as [st err];
    simpl in *. by subst.
Qed.

Lemma preprocessGenerators_register
    s sourceName baseState worker credHelper opts gen rest patchSt :
  generateGomodPatchStateForSource sourceName gen baseState worker credHelper opts =
    (Some patchSt, None) →
  preprocessGenerators s sourceName baseState worker credHelper opts (Some gen :: rest) =
    preprocessGenerators (registerGomodPatch s sourceName patchSt) sourceName
      baseState worker credHelper opts rest.
Proof.
  intros Hgen. simpl.
  destruct (generate_state_gomod _ _ _ _ _ _ _ _ Hgen) as [[g Hg] _].
  by rewrite Hg, Hgen.
Qed.

(** A pass over the generators that ends without error has registered the
    patch states of the generators, in order. *)
Lemma omap_generatorState_cons sourceName baseState worker credHelper opts gen gens :
  omap (generatorState sourceName baseState worker credHelper opts) (Some gen :: gens) =
    match (generateGomodPatchStateForSource sourceName gen baseState worker
             credHelper opts).1 with
    | Some patchSt =>
        patchSt :: omap (generatorState sourceName baseState worker credHelper opts) gens
    | None => omap (generatorState sourceName baseState worker credHelper opts) gens
    end.
Proof. done. Qed.

Lemma preprocessGenerators_ok s sourceName baseState worker credHelper opts gens s' :
  preprocessGenerators s sourceName baseState worker credHelper opts gens = (s', None) →
  s' = registerAll s sourceName
         (omap (generatorState sourceName baseState worker credHelper opts) gens).
Proof.
  revert s. induction gens as [|gen gens IH]; intros s Hrun.
  - by injection Hrun as <-.
  - destruct gen as [gen|]; [|by apply IH].
    rewrite omap_generatorState_cons. simpl in Hrun.
    destruct (Gomod gen) as [g|] eqn:Hg.
    + destruct (generateGomodPatchStateForSource _ _ _ _ _ _) as [[st|] [err|]];
        simpl; [done| |done|by apply IH].
      by rewrite (IH _ Hrun).
    + rewrite generate_no_command by (by rewrite Hg). by apply IH.
Qed.

(** Without a generator error the pass over the generators succeeds. *)
Lemma preprocessGenerators_succeeds s sourceName baseState worker credHelper opts gens :
  Forall (λ gen, generatorError sourceName baseState worker credHelper opts gen = None)
    gens →
  (preprocessGenerators s sourceName baseState worker credHelper opts gens).2 = None.
Proof.
  intros Hok. revert s. induction Hok as [|gen gens Hgen _ IH]; intros s; [done|].
  destruct gen as [gen|]; [|by apply IH]. simpl.
  destruct (Gomod gen) as [g|]; [|by apply IH].
  unfold generatorError in Hgen. simpl in Hgen.
  destruct (generateGomodPatchStateForSource _ _ _ _ _ _) as [[st|] err];
    simpl in Hgen; subst err; by apply IH.
Qed.

Lemma preprocessSources_ok s baseSources worker credHelper opts order s' :
  preprocessSources s baseSources worker credHelper opts order = (s', None) →
  s' = foldl (λ s entry,
                registerAll s entry.1
                  (sourceStates baseSources worker credHelper opts entry.1 entry.2))
         s order.
Proof.
  revert s. induction order as [|[sourceName src] order IH]; intros s Hrun.
  - by injection Hrun as <-.
  - simpl in Hrun. simpl. unfold sourceStates at 2.
    destruct (baseSources !! sourceName) as [baseState|]; [|by apply IH].
    destruct (preprocessGenerators _ _ _ _ _ _ _) as [s1 [err|]] eqn:Hgens; [done|].
    apply preprocessGenerators_ok in Hgens as ->. by apply IH.
Qed.

Lemma foldl_registerAll_patchesOf_notin
    (states : string → Source → list State) s order sourceName :
  sourceName ∉ order.*1 →
  patchesOf (foldl (λ s entry, registerAll s entry.1 (states entry.1 entry.2)) s order)
    sourceName = patchesOf s sourceName.
Proof.
  revert s. induction order as [|[name src] order IH]; intros s Hnotin; [done|].
  simpl in *. apply not_elem_of_cons in Hnotin as [Hne Hnotin].
  by rewrite IH, registerAll_patchesOf_ne.
Qed.

Lemma foldl_registerAll_patchesOf
    (states : string → Source → list State) s order sourceName src :
  NoDup order.*1 →
  (sourceName, src) ∈ order →
  patchesOf (foldl (λ s entry, registerAll s entry.1 (states entry.1 entry.2)) s order)
    sourceName =
    patchesOf s sourceName ++
    replicate (length (states sourceName src)) (gomodPatchSpec sourceName).
Proof.
  revert s. induction order as [|[name src'] order IH]; intros s Hnodup Hin.
  - by apply elem_of_nil in Hin.
  - simpl in *. apply NoDup_cons in Hnodup as [Hfresh Hnodup].
    apply elem_of_cons in Hin as [[= <- <-]|Hin].
    + by rewrite foldl_registerAll_patchesOf_notin, registerAll_patchesOf.
    + rewrite IH by done. rewrite registerAll_patchesOf_ne; [done|].
      intros ->. apply Hfresh. by apply (list_elem_of_fmap_2 fst) in Hin.
Qed.

Lemma rangeOrder_NoDup {V} (m : gmap string V) order :
  rangeOrder m order → NoDup order.*1.
Proof. unfold rangeOrder. intros ->. apply NoDup_fst_map_to_list. Qed.

Lemma rangeOrder_elem_of {V} (m : gmap string V) order k v :
  rangeOrder m order → (k, v) ∈ order ↔ m !! k = Some v.
Proof. unfold rangeOrder. intros ->. apply elem_of_map_to_list. Qed.

Lemma foldl_registerAll_Sources_notin
    (states : string → Source → list State) s order sourceName :
  sourceName ∉ order.*1 →
  Sources (foldl (λ s entry, registerAll s entry.1 (states entry.1 entry.2)) s order)
    !! patchSourceNameOf sourceName = Sources s !! patchSourceNameOf sourceName.
Proof.
  revert s. induction order as [|[name src] order IH]; intros s Hnotin; [done|].
  simpl in *. apply not_elem_of_cons in Hnotin as [Hne Hnotin].
  rewrite IH by done. rewrite registerAll_Sources.
  destruct (last (states name src)); [|done].
  apply lookup_insert_ne. intros Heq. by apply patchSourceNameOf_inj in Heq.
Qed.

Lemma foldl_registerAll_Sources
    (states : string → Source → list State) s order sourceName src patchSt :
  NoDup order.*1 →
  (sourceName, src) ∈ order →
  last (states sourceName src) = Some patchSt →
  Sources (foldl (λ s entry, registerAll s entry.1 (states entry.1 entry.2)) s order)
    !! patchSourceNameOf sourceName = Some (patchSource patchSt).
Proof.
  revert s. induction order as [|[name src'] order IH]; intros s Hnodup Hin Hlast.
  - by apply elem_of_nil in Hin.
  - simpl in *. apply NoDup_cons in Hnodup as [Hfresh Hnodup].
    apply elem_of_cons in Hin as [[= <- <-]|Hin]; [|by apply IH].
    rewrite foldl_registerAll_Sources_notin by done.
    rewrite registerAll_Sources, Hlast. apply lookup_insert_eq.
Qed.

Lemma Preprocess_ok s sOpt worker opts order s' :
  Preprocess s sOpt worker opts order = (s', None) →
  size (gomodSources s) = 0 ∧ s' = s ∨
  (GitCredHelperOpt sOpt).2 = None ∧
  preprocessSources s
    (getPatchedSources s sOpt worker
       (λ name, bool_decide (is_Some (gomodSources s !! name))) opts)
    worker (GitCredHelperOpt sOpt).1 opts order = (s', None).
Proof.
  unfold Preprocess, preprocessGomodEdits.
  case_decide as Hsize; [intros [= <-]; by left|].
  destruct (GitCredHelperOpt sOpt) as [credHelper [err|]]; [done|]. simpl.
  destruct (preprocessSources _ _ _ _ _ _) as [s1 [err|]]; [done|].
  intros [= <-]. by right.
Qed.

(** C1: when the patch-state build of a gomod generator returns a state,
    the pass stores exactly one source, under the key [__gomod_patch_]
    followed by the source name, and appends exactly one patch reference to
    the patch list of the generator's source, after the references already
    there: its source is that key, its path [gomod.patch] and its strip 1;
    the patch lists of other sources stay as they are. Over a whole
    successful pass the patch list of a gomod source grows by one such
    reference per generator that yields a state, and the key holds the state
    of the last of them. *)
Theorem preprocess_registers_patch_source :
  (∀ (s : Spec) (sourceName : string) (gen : SourceGenerator)
     (baseState worker : State) (credHelper : option RunOption)
     (opts : list ConstraintsOpt) (rest : list (option SourceGenerator))
     (patchSt : State),
     generateGomodPatchStateForSource sourceName gen baseState worker credHelper opts =
       (Some patchSt, None) →
     let patchSourceName := "__gomod_patch_" +:+ sourceName in
     let s' := registerGomodPatch s sourceName patchSt in
     preprocessGenerators s sourceName baseState worker credHelper opts
       (Some gen :: rest) =
       preprocessGenerators s' sourceName baseState worker credHelper opts rest ∧
     Sources s' =
       <[patchSourceName := {| LLB := Some (newSourceLLB patchSt); Generate := [] |}]>
         (Sources s) ∧
     (Sources s !! patchSourceName = None → size (Sources s') = S (size (Sources s))) ∧
     patchesOf s' sourceName =
       patchesOf s sourceName ++
       [{| PatchSource := patchSourceName; Strip := Some 1%Z; Path := "gomod.patch" |}] ∧
     (∀ other, other ≠ sourceName → patchesOf s' other = patchesOf s other)) ∧
  (∀ (s : Spec) (sOpt : SourceOpts) (worker : State) (opts : list ConstraintsOpt)
     (order : list (string * Source)) (s' : Spec) (sourceName : string)
     (src : Source) (baseState : State),
     rangeOrder (gomodSources s) order →
     Preprocess s sOpt worker opts order = (s', None) →
     gomodSources s !! sourceName = Some src →
     getPatchedSources s sOpt worker
       (λ name, bool_decide (is_Some (gomodSources s !! name))) opts
       !! sourceName = Some baseState →
     let patchStates :=
       omap (generatorState sourceName baseState worker (GitCredHelperOpt sOpt).1 opts)
         (Generate src) in
     patchesOf s' sourceName =
       patchesOf s sourceName ++
       replicate (length patchStates)
         {| PatchSource := "__gomod_patch_" +:+ sourceName;
            Strip := Some 1%Z; Path := "gomod.patch" |} ∧
     (∀ patchSt, last patchStates = Some patchSt →
        Sources s' !! ("__gomod_patch_" +:+ sourceName) =
          Some {| LLB := Some (newSourceLLB patchSt); Generate := [] |})).
Proof.
  split.
  - intros s sourceName gen baseState worker credHelper opts rest patchSt Hgen
      patchSourceName s'.
    split_and!.
    + by apply preprocessGenerators_register.
    + done.
    + intros Hfresh. by apply map_size_insert_None.
    + apply register_patchesOf.
    + intros other Hne. by apply register_patchesOf_ne.
  - intros s sOpt worker opts order s' sourceName src baseState Horder Hrun Hsrc
      Hbase patchStates.
    apply Preprocess_ok in Hrun as [[Hsize _]|[_ Hrun]].
    { apply map_size_empty_iff in Hsize. by rewrite Hsize, lookup_empty in Hsrc. }
    apply preprocessSources_ok in Hrun as ->.
    pose proof (rangeOrder_NoDup _ _ Horder) as Hnodup.
    apply (rangeOrder_elem_of _ _ _ _ Horder) in Hsrc.
    split.
    + rewrite (foldl_registerAll_patchesOf _ _ _ _ src) by done.
      unfold sourceStates. by rewrite Hbase.
    + intros patchSt Hlast.
      apply (foldl_registerAll_Sources _ _ _ _ src); [done..|].
      unfold sourceStates. by rewrite Hbase.
Qed.

Lemma generatorState_hasNoDirectives sourceName baseState worker credHelper opts gen :
  hasNoDirectives gen →
  generatorState sourceName baseState worker credHelper opts gen = None ∧
  generatorError sourceName baseState worker credHelper opts gen = None.
Proof.
  intros Hno. unfold generatorState, generatorError.
  destruct gen as [gen|]; [|done]. simpl.
  by rewrite generate_hasNoDirectives.
Qed.

Lemma preprocessGenerators_hasNoDirectives
    s sourceName baseState worker credHelper opts gens :
  Forall hasNoDirectives gens →
  preprocessGenerators s sourceName baseState worker credHelper opts gens = (s, None).
Proof.
  induction 1 as [|gen gens Hgen _ IH]; [done|].
  destruct (generatorState_hasNoDirectives sourceName baseState worker credHelper
              opts gen Hgen) as [Hst Herr].
  by rewrite preprocessGenerators_skip.
Qed.

Lemma preprocessSources_hasNoDirectives s baseSources worker credHelper opts order :
  Forall (λ entry, Forall hasNoDirectives (Generate entry.2)) order →
  preprocessSources s baseSources worker credHelper opts order = (s, None).
Proof.
  induction 1 as [|[sourceName src] order Hsrc _ IH]; [done|]. simpl in *.
  destruct (baseSources !! sourceName); [|done].
  by rewrite preprocessGenerators_hasNoDirectives.
Qed.

Lemma hasGomodEdits_hasNoDirectives gen :
  hasNoDirectives gen → hasGomodEdits gen = false.
Proof.
  intros Hno. unfold hasGomodEdits.
  destruct gen as [gen|]; [|done].
  destruct (Gomod gen) as [g|] eqn:Hg; [|done].
  destruct (Edits g) as [edits|] eqn:He; [|done].
  destruct (Hno gen g eq_refl Hg edits He) as [-> ->].
  apply bool_decide_eq_false_2. by intros [?|?].
Qed.

Lemma gomodSources_hasNoDirectives s :
  (∀ sourceName src, Sources s !! sourceName = Some src →
     Forall hasNoDirectives (Generate src)) →
  gomodSources s = ∅.
Proof.
  intros Hno. unfold gomodSources. apply map_empty. intros sourceName.
  apply map_lookup_filter_None_2. right. intros src Hsrc. simpl.
  apply not_true_iff_false.
  specialize (Hno sourceName src Hsrc).
  induction Hno as [|gen gens Hgen _ IH]; [done|]. simpl.
  by rewrite hasGomodEdits_hasNoDirectives.
Qed.

(** C3: for an edit set without directives the edit command is the empty
    string with no error and the patch-state builder returns no state and no
    error; the pass skips such a generator without touching the spec, and a
    pass over sources whose generators all have such edit sets registers no
    patch source and no patch reference and returns no error. *)
Theorem empty_edit_set_registers_nothing :
  (∀ g : GeneratorGomod,
     noDirectives g →
     gomodEditCommand (Some g) = ("", None) ∧
     (∀ sourceName gen baseState worker credHelper opts,
        Gomod gen = Some g →
        generateGomodPatchStateForSource sourceName gen baseState worker credHelper
          opts = (None, None)) ∧
     (∀ s sourceName gen baseState worker credHelper opts rest,
        Gomod gen = Some g →
        preprocessGenerators s sourceName baseState worker credHelper opts
          (Some gen :: rest) =
          preprocessGenerators s sourceName baseState worker credHelper opts rest)) ∧
  (∀ s baseSources worker credHelper opts order,
     Forall (λ entry, Forall hasNoDirectives (Generate entry.2)) order →
     preprocessSources s baseSources worker credHelper opts order = (s, None)) ∧
  (∀ s sOpt worker opts order,
     (∀ sourceName src, Sources s !! sourceName = Some src →
        Forall hasNoDirectives (Generate src)) →
     Preprocess s sOpt worker opts order = (s, None)).
Proof.
  split_and!.
  - intros g Hno.
    assert (Hgen : ∀ gen, Gomod gen = Some g → hasNoDirectives (Some gen)).
    { intros gen Hg gen' g' [= <-] Hg'. by simplify_eq. }
    split_and!.
    + by apply gomodEditCommand_noDirectives.
    + intros sourceName gen baseState worker credHelper opts Hg.
      by apply generate_hasNoDirectives, Hgen.
    + intros s sourceName gen baseState worker credHelper opts rest Hg.
      destruct (generatorState_hasNoDirectives sourceName baseState worker
                  credHelper opts (Some gen) (Hgen gen Hg)) as [Hst Herr].
      by apply preprocessGenerators_skip.
  - intros s baseSources worker credHelper opts order.
    apply preprocessSources_hasNoDirectives.
  - intros s sOpt worker opts order Hno.
    unfold Preprocess, preprocessGomodEdits.
    rewrite (gomodSources_hasNoDirectives s Hno). by rewrite map_size_empty.
Qed.

Lemma generatorState_hasRenderedEdits sourceName baseState worker credHelper opts gen :
  hasRenderedEdits gen →
  (∃ patchSt, generatorState sourceName baseState worker credHelper opts gen =
                Some patchSt) ∧
  generatorError sourceName baseState worker credHelper opts gen = None.
Proof.
  intros Hgen. pose proof Hgen as (gen' & g & edits & -> & _).
  destruct (generate_hasRenderedEdits sourceName gen' baseState worker credHelper
              opts Hgen) as [patchSt Hst].
  unfold generatorState, generatorError. simpl. rewrite Hst. eauto.
Qed.

Lemma hasNoDirectives_hasGomodEdits gen :
  hasGomodEdits gen = false → hasNoDirectives gen.
Proof.
  intros Hno gen' g -> Hg edits He. unfold hasGomodEdits in Hno.
  rewrite Hg, He in Hno. apply bool_decide_eq_false in Hno.
  destruct (Replace edits), (Require edits); try done; destruct Hno; auto.
Qed.

(** The generators that yield a patch state are those with directives. *)
Lemma omap_generatorState_filter sourceName baseState worker credHelper opts gens :
  Forall (λ gen, hasGomodEdits gen = true → hasRenderedEdits gen) gens →
  Forall2 (λ gen patchSt,
             ∃ gen', gen = Some gen' ∧
               generateGomodPatchStateForSource sourceName gen' baseState worker
                 credHelper opts = (Some patchSt, None))
    (filter (λ gen, hasGomodEdits gen = true) gens)
    (omap (generatorState sourceName baseState worker credHelper opts) gens) ∧
  Forall (λ gen, generatorError sourceName baseState worker credHelper opts gen = None)
    gens.
Proof.
  induction 1 as [|gen gens Hgen _ [IHst IHerr]]; [by split; constructor|].
  destruct (hasGomodEdits gen) eqn:Hedits.
  - specialize (Hgen eq_refl). pose proof Hgen as (gen' & g & edits & -> & _).
    destruct (generate_hasRenderedEdits sourceName gen' baseState worker credHelper
                opts Hgen) as [patchSt Hst].
    rewrite filter_cons_True by done.
    rewrite omap_generatorState_cons, Hst. simpl. split.
    + constructor; [by eexists|done].
    + constructor; [|done]. unfold generatorError. simpl. by rewrite Hst.
  - apply hasNoDirectives_hasGomodEdits in Hedits as Hno.
    destruct (generatorState_hasNoDirectives sourceName baseState worker credHelper
                opts gen Hno) as [Hst Herr].
    rewrite filter_cons_False by (by rewrite Hedits).
    cbn [omap list_omap]. rewrite Hst. split; [done|by constructor].
Qed.

(** The loop over the generators of one source: when two or more of them
    have a non-empty edit set and all of these render, every registration
    goes to the one key [__gomod_patch_] followed by the source name, where
    the state of the last such generator remains, and the patch list grows
    by one reference per such generator. *)
Lemma preprocessGenerators_share_patch_source
    (s : Spec) (sourceName : string) (baseState worker : State)
    (credHelper : option RunOption) (opts : list ConstraintsOpt)
    (gens : list (option SourceGenerator)) :
  let withEdits := filter (λ gen, hasGomodEdits gen = true) gens in
  Forall (λ gen, hasGomodEdits gen = true → hasRenderedEdits gen) gens →
  2 ≤ length withEdits →
  ∃ patchStates lastSt,
    Forall2 (λ gen patchSt,
               ∃ gen', gen = Some gen' ∧
                 generateGomodPatchStateForSource sourceName gen' baseState worker
                   credHelper opts = (Some patchSt, None))
      withEdits patchStates ∧
    last patchStates = Some lastSt ∧
    preprocessGenerators s sourceName baseState worker credHelper opts gens =
      (registerAll s sourceName patchStates, None) ∧
    Sources (registerAll s sourceName patchStates) =
      <[("__gomod_patch_" +:+ sourceName) :=
          {| LLB := Some (newSourceLLB lastSt); Generate := [] |}]> (Sources s) ∧
    patchesOf (registerAll s sourceName patchStates) sourceName =
      patchesOf s sourceName ++
      replicate (length withEdits)
        {| PatchSource := "__gomod_patch_" +:+ sourceName;
           Strip := Some 1%Z; Path := "gomod.patch" |} ∧
    (∀ other, other ≠ sourceName →
       patchesOf (registerAll s sourceName patchStates) other = patchesOf s other).
Proof.
  intros withEdits Hgens Hlen.
  set (patchStates :=
         omap (generatorState sourceName baseState worker credHelper opts) gens).
  destruct (omap_generatorState_filter sourceName baseState worker credHelper opts
              gens Hgens) as [Hstates Herrs].
  fold withEdits patchStates in Hstates.
  assert (Hlength : length patchStates = length withEdits)
    by (symmetry; by eapply Forall2_length).
  destruct (last patchStates) as [lastSt|] eqn:Hlast.
  2: { apply last_None in Hlast. rewrite Hlast in Hlength. simpl in Hlength. lia. }
  exists patchStates, lastSt. split_and!.
  - done.
  - done.
  - pose proof (preprocessGenerators_succeeds s sourceName baseState worker
                  credHelper opts gens Herrs) as Herr.
    destruct (preprocessGenerators _ _ _ _ _ _ _) as [s' err] eqn:Hrun.
    simpl in Herr. subst err.
    by rewrite (preprocessGenerators_ok _ _ _ _ _ _ _ _ Hrun).
  - by rewrite registerAll_Sources, Hlast.
  - by rewrite registerAll_patchesOf, Hlength.
  - intros other Hne. by apply registerAll_patchesOf_ne.
Qed.

(** ** Further properties of the patch state builder *)

Lemma firstRenderError_None_rendersAll edits :
  firstRenderError (renderOrder edits) = None ↔ rendersAll edits.
Proof.
  unfold renderOrder, rendersAll. rewrite firstRenderError_app.
  assert (Hrep : ∀ rs : list GomodReplace,
            firstRenderError (map inl rs) = None ↔
            Forall (λ r, (GomodReplace_goModEditArg r).2 = None) rs).
  { induction rs as [|r rs IH]; simpl; [by split; [constructor|]|].
    rewrite Forall_cons, <- IH.
    destruct (GomodReplace_goModEditArg r).2; split; try done; by intros [? ?]. }
  assert (Hreq : ∀ rs : list GomodRequire,
            firstRenderError (map inr rs) = None ↔
            Forall (λ r, (GomodRequire_goModEditArg r).2 = None) rs).
  { induction rs as [|r rs IH]; simpl; [by split; [constructor|]|].
    rewrite Forall_cons, <- IH.
    destruct (GomodRequire_goModEditArg r).2; split; try done; by intros [? ?]. }
  rewrite <- Hrep, <- Hreq.
  destruct (firstRenderError (map inl (Replace edits))); split; try done;
    by intros [? ?].
Qed.

Lemma gomodEditCommand_render_error g edits err :
  Edits g = Some edits →
  firstRenderError (renderOrder edits) = Some err →
  gomodEditCommand (Some g) = ("", Some err).
Proof.
  intros He Hfirst. unfold gomodEditCommand. rewrite He.
  unfold renderOrder in Hfirst. rewrite firstRenderError_app in Hfirst.
  rewrite replaceArgs_first.
  destruct (firstRenderError (map inl (Replace edits))) as [err'|].
  - by injection Hfirst as ->.
  - by rewrite requireArgs_first, Hfirst.
Qed.

(** X1: the outcomes of the patch-state builder. A generator without edit
    set, or with an edit set without directives, gives no state and no
    error; when a directive fails to render the builder gives no state and the
    first render error, Replace directives before Require directives; in
    every other case it gives a state and no error. A state never comes with
    an error. *)
Theorem generateGomodPatchStateForSource_outcomes
    (sourceName : string) (gen : SourceGenerator) (baseState worker : State)
    (credHelper : option RunOption) (opts : list ConstraintsOpt) :
  let result :=
    generateGomodPatchStateForSource sourceName gen baseState worker credHelper opts in
  match editsOf (Some gen) with
  | None => result = (None, None)
  | Some edits =>
      match firstRenderError (renderOrder edits) with
      | Some err => result = (None, Some err)
      | None =>
          if decide (Replace edits = [] ∧ Require edits = []) then
            result = (None, None)
          else ∃ patchSt, result = (Some patchSt, None)
      end
  end.
Proof.
  intros result. subst result. unfold editsOf. simpl.
  destruct (Gomod gen) as [g|] eqn:Hg; simpl; [|by apply generate_no_command; rewrite Hg].
  destruct (Edits g) as [edits|] eqn:He; simpl.
  2: { apply generate_no_command. rewrite Hg.
       apply gomodEditCommand_noDirectives. intros edits He'. congruence. }
  destruct (firstRenderError (renderOrder edits)) as [err|] eqn:Hfirst.
  - unfold generateGomodPatchStateForSource.
    by rewrite Hg, (gomodEditCommand_render_error g edits err He Hfirst).
  - apply firstRenderError_None_rendersAll in Hfirst.
    case_decide as Hnil.
    + apply generate_no_command. rewrite Hg.
      apply gomodEditCommand_noDirectives. intros edits' He'. congruence.
    + apply generate_hasRenderedEdits.
      exists gen, g, edits. split_and!; try done.
      destruct (Replace edits), (Require edits); auto.
Qed.

Lemma generatorError_editsOf sourceName baseState worker credHelper opts gen :
  generatorError sourceName baseState worker credHelper opts gen =
    match editsOf gen with
    | Some edits => firstRenderError (renderOrder edits)
    | None => None
    end.
Proof.
  unfold generatorError, editsOf. destruct gen as [gen|]; [simpl|done].
  destruct (Gomod gen) as [g|] eqn:Hg;
    [|by rewrite generate_no_command by (by rewrite Hg)].
  destruct (Edits g) as [edits|] eqn:He.
  2: { rewrite generate_no_command; [done|]. rewrite Hg.
       apply gomodEditCommand_noDirectives. intros edits He'. congruence. }
  destruct (firstRenderError (renderOrder edits)) as [err|] eqn:Hfirst.
  - unfold generateGomodPatchStateForSource.
    by rewrite Hg, (gomodEditCommand_render_error g edits err He Hfirst).
  - apply firstRenderError_None_rendersAll in Hfirst as [Hrep Hreq].
    unfold generateGomodPatchStateForSource, gomodEditCommand.
    rewrite Hg, He, (replaceArgs_ok _ _ Hrep). simpl.
    rewrite (requireArgs_ok _ _ Hreq).
    case_decide; [done|]. by case_decide.
Qed.

Lemma generatorError_rendersGenerator sourceName baseState worker credHelper opts gen :
  generatorError sourceName baseState worker credHelper opts gen = None ↔
  rendersGenerator gen.
Proof.
  rewrite generatorError_editsOf. unfold rendersGenerator.
  destruct (editsOf gen) as [edits|]; split; try done.
  - by intros Hnone edits' [= <-].
  - intros Hall. by apply Hall.
Qed.

(** ** Further properties of the preprocessing pass *)

Lemma preprocessGenerators_app s sourceName baseState worker credHelper opts oks rest :
  Forall (λ gen, generatorError sourceName baseState worker credHelper opts gen = None)
    oks →
  preprocessGenerators s sourceName baseState worker credHelper opts (oks ++ rest) =
    preprocessGenerators
      (registerAll s sourceName
         (omap (generatorState sourceName baseState worker credHelper opts) oks))
      sourceName baseState worker credHelper opts rest.
Proof.
  intros Hoks. revert s. induction Hoks as [|gen oks Hgen _ IH]; intros s; [done|].
  destruct gen as [gen|]; [|apply IH].
  rewrite omap_generatorState_cons. unfold generatorError in Hgen.
  cbn [mbind option_bind] in Hgen.
  destruct (generateGomodPatchStateForSource sourceName gen baseState worker
              credHelper opts) as [[patchSt|] err] eqn:Hrun;
    cbn [fst snd] in *; subst err.
  - change (registerAll s sourceName (patchSt :: ?l)) with
      (registerAll (registerGomodPatch s sourceName patchSt) sourceName l).
    rewrite <- IH.
    by apply (preprocessGenerators_register s _ _ _ _ _ gen (oks ++ rest)).
  - rewrite <- IH.
    apply (preprocessGenerators_skip s _ _ _ _ _ (Some gen) (oks ++ rest)).
    + unfold generatorState. cbn [mbind option_bind]. by rewrite Hrun.
    + unfold generatorError. cbn [mbind option_bind]. by rewrite Hrun.
Qed.

Lemma preprocessGenerators_error s sourceName baseState worker credHelper opts
    gen rest err :
  generatorError sourceName baseState worker credHelper opts (Some gen) = Some err →
  preprocessGenerators s sourceName baseState worker credHelper opts (Some gen :: rest) =
    (s, Some (errors_Wrap err
                ("failed to generate gomod patch state for source " +:+ sourceName))).
Proof.
  unfold generatorError. simpl. intros Herr.
  destruct (Gomod gen) as [g|] eqn:Hg.
  2: { rewrite generate_no_command in Herr by (by rewrite Hg). done. }
  destruct (generateGomodPatchStateForSource sourceName gen baseState worker
              credHelper opts) as [patchSt err'] eqn:Hrun.
  simpl in Herr. subst err'. by destruct patchSt.
Qed.

(** X2: the pass over the generators of a source stops at the first
    generator with a directive that does not render. It returns that render
    error wrapped with the name of the source, leaves the later generators
    alone, and keeps the registrations of the generators before it: nothing
    is rolled back. *)
Theorem preprocessGenerators_stops_at_first_error
    (s : Spec) (sourceName : string) (baseState worker : State)
    (credHelper : option RunOption) (opts : list ConstraintsOpt)
    (before rest : list (option SourceGenerator)) (gen : SourceGenerator)
    (edits : GomodEdits) (err : error) :
  Forall rendersGenerator before →
  editsOf (Some gen) = Some edits →
  firstRenderError (renderOrder edits) = Some err →
  preprocessGenerators s sourceName baseState worker credHelper opts
    (before ++ Some gen :: rest) =
    (registerAll s sourceName
       (omap (generatorState sourceName baseState worker credHelper opts) before),
     Some (errors_Wrap err
             ("failed to generate gomod patch state for source " +:+ sourceName))).
Proof.
  intros Hbefore Hedits Hfirst.
  rewrite preprocessGenerators_app.
  - apply preprocessGenerators_error.
    by rewrite generatorError_editsOf, Hedits.
  - eapply Forall_impl; [done|]. intros gen'.
    apply generatorError_rendersGenerator.
Qed.

Lemma preprocessGenerators_succeeds_iff
    s sourceName baseState worker credHelper opts gens :
  (preprocessGenerators s sourceName baseState worker credHelper opts gens).2 = None ↔
  Forall rendersGenerator gens.
Proof.
  split.
  - revert s. induction gens as [|gen gens IH]; intros s Hrun; [constructor|].
    destruct (generatorError sourceName baseState worker credHelper opts gen)
      as [err|] eqn:Herr.
    + destruct gen as [gen|]; [|done].
      by rewrite (preprocessGenerators_error _ _ _ _ _ _ _ _ _ Herr) in Hrun.
    + constructor; [by eapply generatorError_rendersGenerator|].
      rewrite (preprocessGenerators_app _ _ _ _ _ _ [gen] gens) in Hrun
        by by constructor.
      by eapply IH.
  - intros Hall. apply preprocessGenerators_succeeds.
    eapply Forall_impl; [done|]. intros gen. apply generatorError_rendersGenerator.
Qed.

Lemma preprocessGenerators_error_inv
    s sourceName baseState worker credHelper opts gens s' e :
  preprocessGenerators s sourceName baseState worker credHelper opts gens =
    (s', Some e) →
  ∃ gen edits err,
    Some gen ∈ gens ∧ editsOf (Some gen) = Some edits ∧
    firstRenderError (renderOrder edits) = Some err ∧
    e = errors_Wrap err
          ("failed to generate gomod patch state for source " +:+ sourceName).
Proof.
  revert s. induction gens as [|gen gens IH]; intros s Hrun; [done|].
  destruct (generatorError sourceName baseState worker credHelper opts gen)
    as [err|] eqn:Herr.
  - destruct gen as [gen|]; [|done].
    rewrite (preprocessGenerators_error _ _ _ _ _ _ _ _ _ Herr) in Hrun.
    injection Hrun as _ <-.
    rewrite generatorError_editsOf in Herr.
    destruct (editsOf (Some gen)) as [edits|] eqn:Hedits; [|done].
    exists gen, edits, err. split_and!; try done. by left.
  - rewrite (preprocessGenerators_app _ _ _ _ _ _ [gen] gens) in Hrun
      by by constructor.
    destruct (IH _ Hrun) as (gen' & edits & err & Hin & ?).
    exists gen', edits, err. split; [by right|done].
Qed.

Lemma preprocessSources_error_inv s baseSources worker credHelper opts order s' e :
  preprocessSources s baseSources worker credHelper opts order = (s', Some e) →
  ∃ sourceName src gen edits err,
    (sourceName, src) ∈ order ∧ is_Some (baseSources !! sourceName) ∧
    Some gen ∈ Generate src ∧ editsOf (Some gen) = Some edits ∧
    firstRenderError (renderOrder edits) = Some err ∧
    e = errors_Wrap err
          ("failed to generate gomod patch state for source " +:+ sourceName).
Proof.
  revert s. induction order as [|[sourceName src] order IH]; intros s Hrun; [done|].
  simpl in Hrun.
  assert (Hrest : ∀ s1,
            preprocessSources s1 baseSources worker credHelper opts order =
              (s', Some e) →
            ∃ name' src' gen edits err,
              (name', src') ∈ (sourceName, src) :: order ∧
              is_Some (baseSources !! name') ∧
              Some gen ∈ Generate src' ∧ editsOf (Some gen) = Some edits ∧
              firstRenderError (renderOrder edits) = Some err ∧
              e = errors_Wrap err
                    ("failed to generate gomod patch state for source " +:+
                     name')).
  { intros s1 Hrun1.
    destruct (IH _ Hrun1) as (name' & src' & gen & edits & err & Hin & ?).
    exists name', src', gen, edits, err. split; [by right|done]. }
  destruct (baseSources !! sourceName) as [baseState|] eqn:Hbase; [|by eapply Hrest].
  destruct (preprocessGenerators s sourceName baseState worker credHelper opts
              (Generate src)) as [s1 [e1|]] eqn:Hgens; [|by eapply Hrest].
  injection Hrun as _ <-.
  destruct (preprocessGenerators_error_inv _ _ _ _ _ _ _ _ _ Hgens)
    as (gen & edits & err & Hin & Hedits & Hfirst & ->).
  exists sourceName, src, gen, edits, err.
  split_and!; first [done|by left|by eexists].
Qed.

(** X3: the errors of a pass. Every error of [Preprocess] is wrapped with
    the text [failed to preprocess gomod edits]. Below that it is either the
    error of the credential helper option, wrapped with its own text and with
    the spec left as it was, or the first render error of a directive of a
    generator of one of the sources that have a base state, wrapped with the
    name of that source. *)
Theorem Preprocess_error_cases
    (s : Spec) (sOpt : SourceOpts) (worker : State) (opts : list ConstraintsOpt)
    (order : list (string * Source)) (s' : Spec) (e : error) :
  Preprocess s sOpt worker opts order = (s', Some e) →
  ∃ cause,
    e = errors_Wrap cause "failed to preprocess gomod edits" ∧
    ((∃ err, (GitCredHelperOpt sOpt).2 = Some err ∧ s' = s ∧
        cause = errors_Wrap err "failed to get git credential helper") ∨
     (∃ sourceName src gen edits err,
        (sourceName, src) ∈ order ∧ Some gen ∈ Generate src ∧
        editsOf (Some gen) = Some edits ∧
        firstRenderError (renderOrder edits) = Some err ∧
        cause = errors_Wrap err
                  ("failed to generate gomod patch state for source " +:+
                   sourceName))).
Proof.
  unfold Preprocess, preprocessGomodEdits.
  case_decide as Hsize; [done|].
  destruct (GitCredHelperOpt sOpt) as [credHelper [err|]] eqn:Hcred; simpl.
  - intros [= <- <-]. eexists. split; [done|]. left. by exists err.
  - destruct (preprocessSources _ _ _ _ _ _) as [s1 [cause|]] eqn:Hrun; [|done].
    intros [= <- <-]. exists cause. split; [done|]. right.
    destruct (preprocessSources_error_inv _ _ _ _ _ _ _ _ Hrun)
      as (sourceName & src & gen & edits & err & Hin & _ & ?).
    by exists sourceName, src, gen, edits, err.
Qed.

Lemma preprocessSources_succeeds_iff s baseSources worker credHelper opts order :
  (preprocessSources s baseSources worker credHelper opts order).2 = None ↔
  Forall (λ entry, is_Some (baseSources !! entry.1) →
                   Forall rendersGenerator (Generate entry.2)) order.
Proof.
  revert s. induction order as [|[sourceName src] order IH]; intros s.
  { split; [constructor|done]. }
  rewrite Forall_cons. simpl.
  destruct (baseSources !! sourceName) as [baseState|] eqn:Hbase.
  - pose proof (preprocessGenerators_succeeds_iff s sourceName baseState worker
                  credHelper opts (Generate src)) as Hgens.
    destruct (preprocessGenerators s sourceName baseState worker credHelper opts
                (Generate src)) as [s1 [e1|]]; simpl in Hgens.
    + split; [done|]. intros [Hsrc _]. by apply Hgens, Hsrc.
    + rewrite IH. split.
      * intros Hrest. split; [|done]. intros _. by apply Hgens.
      * by intros [_ Hrest].
  - rewrite IH. split.
    + intros Hrest. split; [|done]. by intros [? ?].
    + by intros [_ Hrest].
Qed.

(** X4: a pass over the sources returns no error exactly when every
    directive of every generator of every source that has a base state
    renders. Whether it fails does not depend on the spec it started from or
    on the order of the sources. *)
Theorem preprocessSources_succeeds_exactly
    (s : Spec) (baseSources : gmap string State) (worker : State)
    (credHelper : option RunOption) (opts : list ConstraintsOpt)
    (order : list (string * Source)) :
  (preprocessSources s baseSources worker credHelper opts order).2 = None ↔
  (∀ sourceName src gen edits,
     (sourceName, src) ∈ order → is_Some (baseSources !! sourceName) →
     Some gen ∈ Generate src → editsOf (Some gen) = Some edits →
     firstRenderError (renderOrder edits) = None).
Proof.
  rewrite preprocessSources_succeeds_iff, Forall_forall. split.
  - intros Hall sourceName src gen edits Hin Hbase Hgen Hedits.
    specialize (Hall (sourceName, src) Hin Hbase).
    rewrite Forall_forall in Hall. by apply (Hall (Some gen)).
  - intros Hall [sourceName src] Hin Hbase. simpl in *.
    apply Forall_forall. intros [gen|] Hgen edits Hedits; [|done].
    by eapply Hall.
Qed.

Lemma extendsSpec_refl names s : extendsSpec names s s.
Proof.
  split_and!; [|done|done]. intros name. exists 0. simpl. by rewrite app_nil_r.
Qed.

Lemma extendsSpec_trans names s1 s2 s3 :
  extendsSpec names s1 s2 → extendsSpec names s2 s3 → extendsSpec names s1 s3.
Proof.
  intros (Hp12 & Hs12 & Hd12) (Hp23 & Hs23 & Hd23). split_and!.
  - intros name. destruct (Hp12 name) as [n Hn], (Hp23 name) as [m Hm].
    exists (n + m). by rewrite Hm, Hn, <- app_assoc, replicate_add.
  - intros key Hkey. by rewrite Hs23, Hs12.
  - intros key Hkey. by apply Hd23, Hd12.
Qed.

Lemma extendsSpec_weaken names names' s s' :
  names ⊆ names' → extendsSpec names s s' → extendsSpec names' s s'.
Proof.
  intros Hsub (Hp & Hs & Hd). split_and!; [done| |done].
  intros key Hkey. apply Hs. intros name Hname. by apply Hkey, Hsub.
Qed.

Lemma extendsSpec_register s sourceName patchSt :
  extendsSpec [sourceName] s (registerGomodPatch s sourceName patchSt).
Proof.
  split_and!.
  - intros name. destruct (decide (name = sourceName)) as [->|Hne].
    + exists 1. apply register_patchesOf.
    + exists 0. simpl. by rewrite app_nil_r, register_patchesOf_ne.
  - intros key Hkey. rewrite register_Sources.
    apply lookup_insert_ne. intros Heq. apply (Hkey sourceName); [by left|done].
  - intros key Hkey. rewrite register_Sources.
    apply lookup_insert_is_Some'. by right.
Qed.

Lemma extendsSpec_preprocessGenerators
    s sourceName baseState worker credHelper opts gens :
  extendsSpec [sourceName] s
    (preprocessGenerators s sourceName baseState worker credHelper opts gens).1.
Proof.
  revert s. induction gens as [|gen gens IH]; intros s; [apply extendsSpec_refl|].
  destruct gen as [gen|]; [|apply IH]. simpl.
  destruct (Gomod gen); [|apply IH].
  destruct (generateGomodPatchStateForSource _ _ _ _ _ _) as [[patchSt|] [err|]];
    [apply extendsSpec_refl| |apply extendsSpec_refl|apply IH].
  eapply extendsSpec_trans; [apply extendsSpec_register|apply IH].
Qed.

Lemma extendsSpec_preprocessSources s baseSources worker credHelper opts order :
  extendsSpec order.*1 s
    (preprocessSources s baseSources worker credHelper opts order).1.
Proof.
  revert s. induction order as [|[sourceName src] order IH]; intros s;
    [apply extendsSpec_refl|].
  assert (Hrest : ∀ s1, extendsSpec ((sourceName, src) :: order).*1 s1
            (preprocessSources s1 baseSources worker credHelper opts order).1).
  { intros s1. eapply extendsSpec_weaken; [|apply IH].
    intros name Hname. by right. }
  assert (Hhead : [sourceName] ⊆ ((sourceName, src) :: order).*1).
  { intros name Hname. apply list_elem_of_singleton in Hname as ->. by left. }
  simpl. destruct (baseSources !! sourceName) as [baseState|]; [|apply Hrest].
  pose proof (extendsSpec_preprocessGenerators s sourceName baseState worker
                credHelper opts (Generate src)) as Hgens.
  destruct (preprocessGenerators s sourceName baseState worker credHelper opts
              (Generate src)) as [s1 [e1|]]; simpl in Hgens.
  - by eapply extendsSpec_weaken.
  - eapply extendsSpec_trans; [|apply Hrest]. by eapply extendsSpec_weaken.
Qed.

(** X5: a pass only adds, whether it ends with an error or not. Every patch
    list of the resulting spec is the list it was, followed by gomod patch
    references of that source only; every source of the spec is still
    there; and a source is unchanged unless its key is the patch source name
    of one of the sources of the pass. *)
Theorem Preprocess_only_adds
    (s : Spec) (sOpt : SourceOpts) (worker : State) (opts : list ConstraintsOpt)
    (order : list (string * Source)) :
  let s' := (Preprocess s sOpt worker opts order).1 in
  (∀ sourceName, ∃ n,
     patchesOf s' sourceName =
       patchesOf s sourceName ++
       replicate n {| PatchSource := "__gomod_patch_" +:+ sourceName;
                      Strip := Some 1%Z; Path := "gomod.patch" |}) ∧
  (∀ key, is_Some (Sources s !! key) → is_Some (Sources s' !! key)) ∧
  (∀ key, (∀ sourceName, sourceName ∈ order.*1 →
             key ≠ "__gomod_patch_" +:+ sourceName) →
     Sources s' !! key = Sources s !! key).
Proof.
  intros s'.
  assert (Hext : extendsSpec order.*1 s s').
  { subst s'. unfold Preprocess, preprocessGomodEdits.
    case_decide; [apply extendsSpec_refl|].
    destruct (GitCredHelperOpt sOpt) as [credHelper [err|]];
      [apply extendsSpec_refl|].
    pose proof (extendsSpec_preprocessSources s
                  (getPatchedSources s sOpt worker
                     (λ name, bool_decide (is_Some (gomodSources s !! name))) opts)
                  worker credHelper opts order) as Hrun.
    by destruct (preprocessSources _ _ _ _ _ _) as [s1 [e1|]]. }
  destruct Hext as (Hp & Hs & Hd). split_and!; done.
Qed.

(** ** Generators of one source share the patch source *)

Lemma rendersGenerator_hasRenderedEdits gen :
  rendersGenerator gen → hasGomodEdits gen = true → hasRenderedEdits gen.
Proof.
  intros Hrenders Hedits. unfold hasGomodEdits in Hedits.
  destruct gen as [gen|]; [|done].
  destruct (Gomod gen) as [g|] eqn:Hg; [|done].
  destruct (Edits g) as [edits|] eqn:He; [|done].
  apply bool_decide_eq_true in Hedits.
  exists gen, g, edits. split_and!; [done..|].
  apply firstRenderError_None_rendersAll, Hrenders.
  unfold editsOf. by rewrite Hg.
Qed.

Lemma existsb_hasGomodEdits gens :
  filter (λ gen, hasGomodEdits gen = true) gens ≠ [] →
  existsb hasGomodEdits gens = true.
Proof.
  induction gens as [|gen gens IH]; [done|]. simpl.
  destruct (hasGomodEdits gen) eqn:Hgen; [done|].
  rewrite filter_cons_False by (by rewrite Hgen). exact IH.
Qed.

Lemma Preprocess_extendsSpec s sOpt worker opts order :
  extendsSpec order.*1 s (Preprocess s sOpt worker opts order).1.
Proof.
  unfold Preprocess, preprocessGomodEdits.
  case_decide; [apply extendsSpec_refl|].
  destruct (GitCredHelperOpt sOpt) as [credHelper [err|]];
    [apply extendsSpec_refl|].
  pose proof (extendsSpec_preprocessSources s
                (getPatchedSources s sOpt worker
                   (λ name, bool_decide (is_Some (gomodSources s !! name))) opts)
                worker credHelper opts order) as Hrun.
  by destruct (preprocessSources _ _ _ _ _ _) as [s1 [e1|]].
Qed.

(** C10: every gomod generator of a source derives the same patch source
    name, [__gomod_patch_] followed by the source name. When a source of the
    spec declares two or more generators with non-empty edit sets, a
    successful [Preprocess] has built a patch state for each of them and has
    registered each under that one key of the sources, so that the key holds
    the state of the last such generator and no other key was written for
    this source; the patch list of the source has still grown by one
    reference per such generator, all naming that key. *)
Theorem generators_share_patch_source
    (s : Spec) (sOpt : SourceOpts) (worker : State) (opts : list ConstraintsOpt)
    (order : list (string * Source)) (s' : Spec) (sourceName : string)
    (src : Source) (baseState : State) :
  let withEdits := filter (λ gen, hasGomodEdits gen = true) (Generate src) in
  let patchSourceName := "__gomod_patch_" +:+ sourceName in
  rangeOrder (gomodSources s) order →
  Preprocess s sOpt worker opts order = (s', None) →
  Sources s !! sourceName = Some src →
  getPatchedSources s sOpt worker
    (λ name, bool_decide (is_Some (gomodSources s !! name))) opts
    !! sourceName = Some baseState →
  2 ≤ length withEdits →
  ∃ patchStates lastSt,
    Forall2 (λ gen patchSt,
               ∃ gen', gen = Some gen' ∧
                 generateGomodPatchStateForSource sourceName gen' baseState worker
                   (GitCredHelperOpt sOpt).1 opts = (Some patchSt, None))
      withEdits patchStates ∧
    last patchStates = Some lastSt ∧
    Sources s' !! patchSourceName =
      Some {| LLB := Some (newSourceLLB lastSt); Generate := [] |} ∧
    (∀ key, (∀ name, name ∈ order.*1 → key ≠ "__gomod_patch_" +:+ name) →
       Sources s' !! key = Sources s !! key) ∧
    patchesOf s' sourceName =
      patchesOf s sourceName ++
      replicate (length withEdits)
        {| PatchSource := patchSourceName;
           Strip := Some 1%Z; Path := "gomod.patch" |}.
Proof.
  intros withEdits patchSourceName Horder Hrun Hsrc Hbase Hlen.
  assert (Hgomod : gomodSources s !! sourceName = Some src).
  { apply map_lookup_filter_Some. split; [done|]. simpl.
    apply existsb_hasGomodEdits. fold withEdits.
    destruct withEdits; [simpl in Hlen; lia|done]. }
  pose proof (Preprocess_extendsSpec s sOpt worker opts order) as (_ & Hkeys & _).
  rewrite Hrun in Hkeys. simpl in Hkeys.
  apply Preprocess_ok in Hrun as [[Hsize _]|[_ Hrun]].
  { apply map_size_empty_iff in Hsize. by rewrite Hsize, lookup_empty in Hgomod. }
  pose proof (rangeOrder_NoDup _ _ Horder) as Hnodup.
  apply (rangeOrder_elem_of _ _ _ _ Horder) in Hgomod as Hin.
  set (baseSources := getPatchedSources s sOpt worker
         (λ name, bool_decide (is_Some (gomodSources s !! name))) opts) in *.
  set (credHelper := (GitCredHelperOpt sOpt).1) in *.
  assert (Hrenders : Forall rendersGenerator (Generate src)).
  { pose proof (proj1 (preprocessSources_succeeds_iff s baseSources worker
                         credHelper opts order)) as Hall.
    rewrite Hrun in Hall. specialize (Hall eq_refl).
    rewrite Forall_forall in Hall.
    apply (Hall (sourceName, src) Hin). simpl. by eexists. }
  assert (Hgens : Forall (λ gen, hasGomodEdits gen = true → hasRenderedEdits gen)
                    (Generate src)).
  { eapply Forall_impl; [exact Hrenders|].
    intros gen Hgen. by apply rendersGenerator_hasRenderedEdits. }
  set (patchStates :=
         omap (generatorState sourceName baseState worker credHelper opts)
           (Generate src)).
  destruct (omap_generatorState_filter sourceName baseState worker credHelper opts
              (Generate src) Hgens) as [Hstates _].
  fold withEdits patchStates in Hstates.
  assert (Hlength : length patchStates = length withEdits)
    by (symmetry; by eapply Forall2_length).
  destruct (last patchStates) as [lastSt|] eqn:Hlast.
  2: { apply last_None in Hlast. rewrite Hlast in Hlength. simpl in Hlength. lia. }
  assert (Hsource : sourceStates baseSources worker credHelper opts sourceName src =
                      patchStates).
  { unfold sourceStates. by rewrite Hbase. }
  apply preprocessSources_ok in Hrun as ->.
  exists patchStates, lastSt. split_and!; [done|done| |done|].
  - apply (foldl_registerAll_Sources _ _ _ _ src); [done..|].
    by rewrite Hsource.
  - rewrite (foldl_registerAll_patchesOf _ _ _ _ src) by done.
    by rewrite Hsource, Hlength.
Qed.

(** ** The order of the sources *)

Lemma registerGomodPatch_comm s name1 st1 name2 st2 :
  name1 ≠ name2 →
  registerGomodPatch (registerGomodPatch s name1 st1) name2 st2 =
  registerGomodPatch (registerGomodPatch s name2 st2) name1 st1.
Proof.
  intros Hne. unfold registerGomodPatch. simpl. f_equal.
  - apply insert_insert_ne. intros Heq. by apply patchSourceNameOf_inj in Heq.
  - f_equal. rewrite !lookup_insert_ne by done. by apply insert_insert_ne.
Qed.

Lemma registerAll_register_comm s name1 sts1 name2 st2 :
  name1 ≠ name2 →
  registerGomodPatch (registerAll s name1 sts1) name2 st2 =
  registerAll (registerGomodPatch s name2 st2) name1 sts1.
Proof.
  intros Hne. revert s. induction sts1 as [|st1 sts1 IH]; intros s; [done|].
  simpl. rewrite IH. by rewrite registerGomodPatch_comm.
Qed.

Lemma registerAll_comm s name1 sts1 name2 sts2 :
  name1 ≠ name2 →
  registerAll (registerAll s name1 sts1) name2 sts2 =
  registerAll (registerAll s name2 sts2) name1 sts1.
Proof.
  intros Hne. revert s. induction sts2 as [|st2 sts2 IH]; intros s; [done|].
  simpl. rewrite <- IH. f_equal. by apply registerAll_register_comm.
Qed.

Lemma foldl_registerAll_Permutation
    (states : string → Source → list State) order order' :
  order ≡ₚ order' →
  NoDup order.*1 →
  ∀ s,
    foldl (λ s entry, registerAll s entry.1 (states entry.1 entry.2)) s order =
    foldl (λ s entry, registerAll s entry.1 (states entry.1 entry.2)) s order'.
Proof.
  induction 1 as [|entry l l' _ IH|entry1 entry2 l|l1 l2 l3 H12 IH12 _ IH23];
    intros Hnodup s.
  - done.
  - simpl. apply IH. by apply NoDup_cons in Hnodup as [_ ?].
  - simpl. f_equal. apply registerAll_comm.
    simpl in Hnodup. apply NoDup_cons in Hnodup as [Hnotin _].
    intros Heq. apply Hnotin. rewrite Heq. by left.
  - rewrite IH12 by done. apply IH23. by rewrite <- H12.
Qed.

(** X6: the spec a pass returns does not depend on the order in which the
    map of the gomod sources hands out its entries. Two runs of [Preprocess]
    that meet the sources in different orders return the same spec when one
    of them returns no error, and then the other returns no error either. *)
Theorem Preprocess_order_independent
    (s : Spec) (sOpt : SourceOpts) (worker : State) (opts : list ConstraintsOpt)
    (order order' : list (string * Source)) (s' : Spec) :
  rangeOrder (gomodSources s) order →
  rangeOrder (gomodSources s) order' →
  Preprocess s sOpt worker opts order = (s', None) →
  Preprocess s sOpt worker opts order' = (s', None).
Proof.
  intros Horder Horder' Hrun.
  assert (Hperm : order ≡ₚ order') by (unfold rangeOrder in *; by rewrite Horder).
  pose proof (rangeOrder_NoDup _ _ Horder) as Hnodup.
  apply Preprocess_ok in Hrun as [[Hsize ->]|[Hcred Hrun]].
  { unfold Preprocess, preprocessGomodEdits. by rewrite decide_True. }
  unfold Preprocess, preprocessGomodEdits.
  case_decide as Hsize.
  { unfold Preprocess, preprocessGomodEdits in Hrun.
    apply map_size_empty_iff in Hsize. unfold rangeOrder in Horder, Horder'.
    rewrite Hsize, map_to_list_empty in Horder, Horder'.
    apply Permutation_nil_r in Horder as ->. by injection Hrun as <-. }
  destruct (GitCredHelperOpt sOpt) as [credHelper [err|]]; [done|]. simpl in *.
  set (baseSources := getPatchedSources s sOpt worker
         (λ name, bool_decide (is_Some (gomodSources s !! name))) opts) in *.
  assert (Hok : (preprocessSources s baseSources worker credHelper opts order').2 =
                  None).
  { apply preprocessSources_succeeds_iff. rewrite <- Hperm.
    apply (proj1 (preprocessSources_succeeds_iff s baseSources worker credHelper
                    opts order)).
    by rewrite Hrun. }
  destruct (preprocessSources s baseSources worker credHelper opts order')
    as [s2 e2] eqn:Hrun'.
  simpl in Hok. subst e2.
  apply preprocessSources_ok in Hrun as ->.
  apply preprocessSources_ok in Hrun' as ->.
  f_equal. symmetry.
  by apply (foldl_registerAll_Permutation
              (sourceStates baseSources worker credHelper opts)).
Qed.

(** ** The layout of the patch state *)

Lemma splitOn_no_sep (sep : ascii) (a : string) :
  sep ∉ String.list_ascii_of_string a → splitOn sep a = [a].
Proof.
  induction a as [|c a IH]; simpl; intros Hfree; [done|].
  apply not_elem_of_cons in Hfree as [Hc Ha].
  rewrite decide_False by done. by rewrite IH.
Qed.

Lemma splitOn_app (sep : ascii) (a b : string) :
  sep ∉ String.list_ascii_of_string a →
  splitOn sep (a +:+ String sep b) = a :: splitOn sep b.
Proof.
  induction a as [|c a IH]; simpl; intros Hfree.
  - by rewrite decide_True.
  - apply not_elem_of_cons in Hfree as [Hc Ha].
    rewrite decide_False by done. by rewrite IH.
Qed.

Lemma list_ascii_of_string_app (a b : string) :
  String.list_ascii_of_string (a +:+ b) =
    String.list_ascii_of_string a ++ String.list_ascii_of_string b.
Proof.
  induction a as [|c a IH]; [done|].
  rewrite string_app_cons. simpl. by rewrite IH.
Qed.

Lemma patchSourceNameOf_no_slash sourceName :
  slash ∉ String.list_ascii_of_string sourceName →
  slash ∉ String.list_ascii_of_string (patchSourceNameOf sourceName).
Proof.
  intros Hfree. unfold patchSourceNameOf. rewrite list_ascii_of_string_app.
  apply not_elem_of_app. split; [|done].
  vm_compute. intros Hin.
  repeat (apply elem_of_cons in Hin as [Hin|Hin]; [discriminate Hin|]).
  by apply elem_of_nil in Hin.
Qed.

Lemma cleanElem_patchSourceNameOf rooted kept sourceName :
  cleanElem rooted kept (patchSourceNameOf sourceName) =
    patchSourceNameOf sourceName :: kept.
Proof.
  unfold cleanElem, patchSourceNameOf, gomodPatchSourcePrefix.
  rewrite string_app_cons. by repeat (rewrite decide_False by done).
Qed.

Lemma filepath_Join_patch_dir sourceName :
  slash ∉ String.list_ascii_of_string sourceName →
  filepath_Join ["/"; patchSourceNameOf sourceName] =
    "/" +:+ patchSourceNameOf sourceName.
Proof.
  intros Hfree. apply patchSourceNameOf_no_slash in Hfree.
  unfold filepath_Join. rewrite decide_False by done.
  unfold filepath_Clean, strings_Join. cbn [String.concat].
  change ("/" +:+ "/" +:+ ?a) with (String slash (String slash a)).
  cbn [splitOn]. rewrite !decide_True by done.
  rewrite (splitOn_no_sep _ _ Hfree).
  cbn [fold_left]. rewrite cleanElem_patchSourceNameOf.
  by rewrite bool_decide_eq_true_2.
Qed.

Lemma filepath_Join_patch_file sourceName :
  slash ∉ String.list_ascii_of_string sourceName →
  filepath_Join ["/"; patchSourceNameOf sourceName; gomodPatchFilename] =
    "/" +:+ patchSourceNameOf sourceName +:+ "/" +:+ gomodPatchFilename.
Proof.
  intros Hfree. apply patchSourceNameOf_no_slash in Hfree.
  unfold filepath_Join. rewrite decide_False by done.
  unfold filepath_Clean, strings_Join. cbn [String.concat].
  change ("/" +:+ "/" +:+ ?a) with (String slash (String slash a)).
  cbn [splitOn]. rewrite !decide_True by done.
  change ("/" +:+ gomodPatchFilename) with (String slash gomodPatchFilename).
  rewrite (splitOn_app _ _ _ Hfree).
  cbn [fold_left]. rewrite cleanElem_patchSourceNameOf.
  by rewrite bool_decide_eq_true_2.
Qed.

(** X7: the patch reference points at the patch file. For a source name
    without a slash, the state the builder returns is a scratch state with
    the directory named like the patch source, into which the file
    [gomod.patch] of the output mount of the run is copied at the path made
    of a slash, the source of the reference the pass appends, a slash and
    the path of that reference. *)
Theorem patch_state_holds_referenced_file
    (sourceName : string) (gen : SourceGenerator) (baseState worker : State)
    (credHelper : option RunOption) (opts : list ConstraintsOpt) (patchSt : State) :
  slash ∉ String.list_ascii_of_string sourceName →
  generateGomodPatchStateForSource sourceName gen baseState worker credHelper opts =
    (Some patchSt, None) →
  let ref := gomodPatchSpec sourceName in
  ∃ runOpts,
    patchSt =
      File
        (File Scratch (Mkdir ("/" +:+ PatchSource ref) 493 true) opts)
        (Copy (RunAddMount worker runOpts "/tmp/patch-work" Scratch)
           "/gomod.patch" ("/" +:+ PatchSource ref +:+ "/" +:+ Path ref))
        opts.
Proof.
  intros Hfree Hrun ref. unfold generateGomodPatchStateForSource in Hrun.
  destruct (gomodEditCommand (Gomod gen)) as [editCmd [err|]]; [done|].
  case_decide; [done|].
  destruct (Gomod gen) as [g|]; [|done].
  cbn [buildGomodPatchScript] in Hrun. cbv zeta in Hrun.
  fold (patchSourceNameOf sourceName) in Hrun.
  rewrite (filepath_Join_patch_dir _ Hfree),
    (filepath_Join_patch_file _ Hfree) in Hrun.
  injection Hrun as <-. by eexists.
Qed.

(** ** The git configuration block *)

Lemma string_app_empty (a b : string) : a +:+ b = "" ↔ a = "" ∧ b = "".
Proof.
  split; [|by intros [-> ->]].
  destruct a as [|c a]; [intros Hb; split; [done|exact Hb]|].
  by rewrite string_app_cons.
Qed.

Lemma concat_empty_nil (ls : list string) :
  String.concat "" ls = "" ↔ Forall (λ l, l = "") ls.
Proof.
  induction ls as [|l ls IH]; [by split; [constructor|]|].
  by rewrite concat_empty_cons, string_app_empty, Forall_cons, IH.
Qed.

Lemma gitConfigLine_empty auth host :
  gitConfigLine auth host = "" ↔ carriesCredentials auth = false.
Proof.
  unfold gitConfigLine, carriesCredentials, authKind.
  rewrite bool_decide_eq_false.
  destruct (SSH auth) as [ssh|].
  - split; [by rewrite string_app_cons|]. intros Hno. destruct Hno. by left.
  - destruct (decide (Token auth ≠ "")) as [Ht|Ht].
    + rewrite decide_True by done. split; [by rewrite string_app_cons|].
      intros Hno. destruct Hno. by right; left.
    + destruct (decide (Header auth ≠ "")) as [Hh|Hh].
      * rewrite decide_True by done. split; [by rewrite string_app_cons|].
        intros Hno. destruct Hno. by right; right.
      * rewrite decide_False by (by intros Hne; apply Hne).
        split; [|done]. by intros _ [?|[?|?]].
Qed.

Lemma filter_nil_Forall {A} (P : A → Prop) `{!∀ x, Decision (P x)} (l : list A) :
  filter P l = [] ↔ Forall (λ x, ¬ P x) l.
Proof.
  induction l as [|x l IH]; [by split; [constructor|]|].
  rewrite Forall_cons, <- IH. destruct (decide (P x)) as [Hx|Hx].
  - rewrite filter_cons_True by done. split; [done|]. by intros [? _].
  - rewrite filter_cons_False by done. split; [done|]. by intros [_ ?].
Qed.

Lemma carriesCredentials_false auth :
  carriesCredentials auth = false ↔
  SSH auth = None ∧ Token auth = "" ∧ Header auth = "".
Proof.
  unfold carriesCredentials. rewrite bool_decide_eq_false. split.
  - intros Hno. split_and!.
    + destruct (SSH auth) eqn:Hssh; [|done]. destruct Hno. by left.
    + destruct (decide (Token auth = "")); [done|]. destruct Hno. by right; left.
    + destruct (decide (Header auth = "")); [done|]. destruct Hno. by right; right.
  - intros (Hssh & Htoken & Hheader). by intros [?|[?|?]].
Qed.

(** The lines of the hosts without credentials are empty, so the lines of
    all hosts are those of the hosts with credentials. *)
Lemma concat_hostLine_filter Auth hosts :
  String.concat "" (map (hostLine Auth) hosts) =
  String.concat ""
    (map (hostLine Auth)
       (filter (λ host,
                  carriesCredentials (default zeroGomodGitAuth (Auth !! host)) = true)
          hosts)).
Proof.
  induction hosts as [|host hosts IH]; [done|].
  cbn [map]. rewrite concat_empty_cons, IH.
  destruct (carriesCredentials (default zeroGomodGitAuth (Auth !! host))) eqn:Hc.
  - rewrite filter_cons_True by done. cbn [map]. by rewrite concat_empty_cons.
  - rewrite filter_cons_False by (by rewrite Hc).
    apply gitConfigLine_empty with (host := host) in Hc.
    unfold hostLine at 1. by rewrite Hc.
Qed.

Lemma StronglySorted_filter_keeps {A} (R : relation A) (P : A → Prop)
    `{!∀ x, Decision (P x)} (l : list A) :
  StronglySorted R l → StronglySorted R (filter P l).
Proof.
  induction 1 as [|x l Hl IH Hx]; [constructor|].
  destruct (decide (P x)).
  - rewrite filter_cons_True by done. constructor; [done|].
    apply Forall_forall. intros y Hy. apply list_elem_of_filter in Hy as [_ Hy].
    by eapply Forall_forall in Hx.
  - by rewrite filter_cons_False.
Qed.

(** X8: the synthesized script has the block that sets up git
    authentication exactly when some host of the Auth mapping has SSH, a
    token or a header set: after the text before the block the script has
    the heading and one non-empty line for each host with one of them, in
    sorted order, and nothing when there is no such host. Hosts without any
    of them give the script no line. *)
Theorem git_authentication_block_iff_credentials
    (editCmd : string) (paths : list string) (gen : SourceGenerator)
    (g : GeneratorGomod) (sourceName patchOutputDir : string) :
  let d := gomodScriptData editCmd paths gen g sourceName patchOutputDir in
  let hosts := credentialHosts (Auth g) in
  (hosts = [] ↔
   ∀ host auth, Auth g !! host = Some auth →
     SSH auth = None ∧ Token auth = "" ∧ Header auth = "") ∧
  (∀ host, host ∈ hosts ↔
     ∃ auth, Auth g !! host = Some auth ∧
       (SSH auth ≠ None ∨ Token auth ≠ "" ∨ Header auth ≠ "")) ∧
  StronglySorted String.le hosts ∧
  Forall (λ host, hostLine (Auth g) host ≠ "") hosts ∧
  buildGomodPatchScript editCmd paths gen g sourceName patchOutputDir =
    (scriptPrologue d +:+
     (if decide (hosts = []) then ""
      else newline +:+ "# Setup git authentication" +:+ newline +:+
           String.concat "" (map (hostLine (Auth g)) hosts)) +:+
     scriptAfterGitConfig d,
     None).
Proof.
  intros d hosts.
  assert (Hin : ∀ host, host ∈ hosts ↔
            ∃ auth, Auth g !! host = Some auth ∧
              (SSH auth ≠ None ∨ Token auth ≠ "" ∨ Header auth ≠ "")).
  { intros host. unfold hosts, credentialHosts.
    rewrite list_elem_of_filter, SortMapKeys_elem_of. split.
    - intros [Hc [auth Hhost]]. exists auth. split; [done|].
      rewrite Hhost in Hc. simpl in Hc. unfold carriesCredentials in Hc.
      by apply bool_decide_eq_true in Hc.
    - intros (auth & Hhost & Hc). split; [|by eexists].
      rewrite Hhost. simpl. unfold carriesCredentials.
      by apply bool_decide_eq_true. }
  assert (Hlines : Forall (λ host, hostLine (Auth g) host ≠ "") hosts).
  { apply Forall_forall. intros host Hhost Hline.
    unfold hosts, credentialHosts in Hhost.
    apply list_elem_of_filter in Hhost as [Hc _].
    apply gitConfigLine_empty in Hline. by rewrite Hline in Hc. }
  split_and!; [|done| |done|].
  - split.
    + intros Hnil host auth Hhost.
      apply carriesCredentials_false.
      destruct (carriesCredentials auth) eqn:Hc; [|done].
      assert (Hhosts : host ∈ hosts).
      { apply Hin. exists auth. split; [done|].
        unfold carriesCredentials in Hc. by apply bool_decide_eq_true in Hc. }
      rewrite Hnil in Hhosts. by apply not_elem_of_nil in Hhosts.
    + intros Hnone. destruct hosts as [|host rest] eqn:Hhosts; [done|].
      assert (Hhost : host ∈ hosts) by (rewrite Hhosts; by left).
      rewrite <- Hhosts in Hin.
      apply Hin in Hhost as (auth & Hauth & Hc).
      destruct (Hnone host auth Hauth) as (Hssh & Htoken & Hheader).
      by destruct Hc as [?|[?|?]].
  - unfold hosts, credentialHosts.
    apply StronglySorted_filter_keeps, SortMapKeys_sorted.
  - unfold buildGomodPatchScript, executeTemplate. fold d.
    fold (scriptAfterGoPrivate d).
    unfold scriptGitConfig, scriptAfterGitConfig.
    assert (Hconfig : GitConfig d =
              String.concat "" (map (hostLine (Auth g)) (SortMapKeys (Auth g))))
      by apply gomodScriptData_GitConfig.
    rewrite Hconfig, concat_hostLine_filter.
    fold (credentialHosts (Auth g)). fold hosts.
    destruct (decide (hosts = [])) as [Hnil|Hne].
    + by rewrite Hnil.
    + rewrite decide_False; [done|].
      rewrite concat_empty_nil, Forall_fmap. intros Hempty.
      destruct hosts as [|host rest]; [done|].
      apply Forall_cons in Hempty as [Hempty _].
      apply Forall_cons in Hlines as [Hline _]. done.
Qed.

(** ** Module paths and internal sources *)

(** X9: a generator that declares no paths is processed like one that
    declares the single path [.]: when both have the same secrets option, the
    builder returns the same result for them. *)
Theorem generate_default_path
    (sourceName : string) (gen : SourceGenerator) (g : GeneratorGomod)
    (baseState worker : State) (credHelper : option RunOption)
    (opts : list ConstraintsOpt) :
  let gen' :=
    {| Subpath := Subpath gen;
       Gomod := Some {| Paths := ["."]; Auth := Auth g; Edits := Edits g |} |} in
  Gomod gen = Some g →
  Paths g = [] →
  withGomodSecretsAndSockets gen' = withGomodSecretsAndSockets gen →
  generateGomodPatchStateForSource sourceName gen' baseState worker credHelper opts =
  generateGomodPatchStateForSource sourceName gen baseState worker credHelper opts.
Proof.
  intros gen' Hg Hpaths Hsecrets. unfold generateGomodPatchStateForSource.
  rewrite Hg, Hsecrets, Hpaths. subst gen'. cbn [Gomod Paths Subpath].
  assert (Hcmd : gomodEditCommand
                   (Some {| Paths := ["."]; Auth := Auth g; Edits := Edits g |}) =
                 gomodEditCommand (Some g)) by done.
  rewrite Hcmd. destruct (gomodEditCommand (Some g)) as [editCmd [err|]]; [done|].
  case_decide; [done|]. done.
Qed.

(** X10: an internal source made from a patch state gives the state back.
    After the registration of a patch state for a source, the entry of the
    sources under the patch source name is an LLB source that is no
    directory, validates, and fetched without a rename, or with the rename
    [/], yields exactly the registered patch state. *)
Theorem registered_patch_source_yields_patch_state
    (s : Spec) (sourceName : string) (patchSt : State) (opt : fetchOptions) :
  Rename opt = "" ∨ Rename opt = "/" →
  ∃ src llb,
    Sources (registerGomodPatch s sourceName patchSt)
      !! ("__gomod_patch_" +:+ sourceName) = Some src ∧
    LLB src = Some llb ∧
    SourceLLB_IsDir llb = false ∧
    SourceLLB_validate llb opt = None ∧
    SourceLLB_toState llb opt = storedState patchSt ∧
    (SourceLLB_toMount llb opt).1 = storedState patchSt ∧
    (Rename opt = "" → (SourceLLB_toMount llb opt).2 = []).
Proof.
  intros Hrename. exists (patchSource patchSt), (newSourceLLB patchSt).
  assert (HtoState : SourceLLB_toState (newSourceLLB patchSt) opt =
                       storedState patchSt).
  { unfold SourceLLB_toState. case_decide as Hcase; [|done].
    destruct Hcase as [Hne Hne']. by destruct Hrename. }
  split_and!; try done.
  - rewrite register_Sources. apply lookup_insert_eq.
  - unfold SourceLLB_toMount. rewrite HtoState. by case_decide.
  - intros Hempty. unfold SourceLLB_toMount. by rewrite decide_False by naive_solver.
Qed.

(** ** Credentials and the patch state *)

Lemma gomodEditCommand_Edits g g' :
  Edits g = Edits g' → gomodEditCommand (Some g) = gomodEditCommand (Some g').
Proof. intros Hedits. unfold gomodEditCommand. by rewrite Hedits. Qed.

(** X11: credential material reaches the patch state through the secrets
    option only. Two generators that differ in the SSH key references, the
    token values and the header values of their hosts, and in nothing else
    the script shows, give the same result of the builder when their secrets
    options are the same. *)
Theorem patch_state_independent_of_credentials
    (sourceName : string) (gen gen' : SourceGenerator) (g g' : GeneratorGomod)
    (baseState worker : State) (credHelper : option RunOption)
    (opts : list ConstraintsOpt) :
  Gomod gen = Some g →
  Gomod gen' = Some g' →
  Subpath gen = Subpath gen' →
  Paths g = Paths g' →
  Edits g = Edits g' →
  sameCredentialKinds (Auth g) (Auth g') →
  withGomodSecretsAndSockets gen = withGomodSecretsAndSockets gen' →
  generateGomodPatchStateForSource sourceName gen baseState worker credHelper opts =
  generateGomodPatchStateForSource sourceName gen' baseState worker credHelper opts.
Proof.
  intros Hg Hg' Hsub Hpaths Hedits Hsame Hsecrets.
  unfold generateGomodPatchStateForSource.
  rewrite Hg, Hg', Hsecrets, Hpaths, (gomodEditCommand_Edits g g' Hedits).
  unfold buildGomodPatchScript, gomodScriptData.
  by rewrite Hsub, (sameCredentialKinds_section _ _ Hsame).
Qed.

Lemma strings_Cut_before_no_sep (s : string) (sep : ascii) :
  sep ∉ String.list_ascii_of_string (strings_Cut s sep).1.1.
Proof.
  induction s as [|c s IH]; simpl; [apply not_elem_of_nil|].
  case_decide as Hc; simpl; [apply not_elem_of_nil|].
  destruct (strings_Cut s sep) as [[before after] found]. simpl in *.
  apply not_elem_of_cons. split; [by intros ->|done].
Qed.

Lemma strings_Cut_before_prefix (s : string) (sep : ascii) :
  ∃ rest, s = (strings_Cut s sep).1.1 +:+ rest.
Proof.
  induction s as [|c s [rest IH]]; simpl; [by exists ""|].
  case_decide as Hc; simpl; [by eexists|].
  destruct (strings_Cut s sep) as [[before after] found]. simpl in *.
  exists rest. by rewrite string_app_cons, <- IH.
Qed.

(** X12: the hosts listed for GOPRIVATE and GOINSECURE carry no port. The
    value is the quoted comma-joined list of one entry per host of the Auth
    mapping; every entry is the start of a configured host and contains no
    colon. *)
Theorem goPrivate_entries_have_no_port
    (editCmd : string) (paths : list string) (gen : SourceGenerator)
    (g : GeneratorGomod) (sourceName patchOutputDir : string) :
  let d := gomodScriptData editCmd paths gen g sourceName patchOutputDir in
  let entries := (hostLoop (Auth g) (SortMapKeys (Auth g)) "" []).2 in
  (Auth g ≠ ∅ →
     GoPrivate d = Sprintf_q (strings_Join entries ",") ∧
     GoInsecure d = Sprintf_q (strings_Join entries ",")) ∧
  length entries = size (Auth g) ∧
  Forall (λ entry,
            (colon ∉ String.list_ascii_of_string entry) ∧
            ∃ host rest, is_Some (Auth g !! host) ∧ host = entry +:+ rest)
    entries.
Proof.
  intros d entries. subst entries. rewrite hostLoop_lines. simpl.
  split_and!.
  - intros Hne.
    pose proof (gomodScriptData_auth editCmd paths gen g sourceName patchOutputDir)
      as Hd. cbn zeta in Hd. fold d in Hd.
    rewrite gitConfigSection_unfold, decide_False in Hd by done.
    cbn zeta in Hd. by injection Hd as _ -> ->.
  - rewrite length_map, SortMapKeys_perm, length_fmap. apply length_map_to_list.
  - apply Forall_fmap, Forall_forall. intros host Hhost. simpl. split.
    + apply strings_Cut_before_no_sep.
    + destruct (strings_Cut_before_prefix host colon) as [rest Hrest].
      exists host, rest. split; [by apply SortMapKeys_elem_of|done].
Qed.

End Preprocessing.

(** ** The theorems at sample inputs *)

Lemma rangeOrder_map_to_list {V} (m : gmap string V) : rangeOrder m (map_to_list m).
Proof. unfold rangeOrder. reflexivity. Qed.

(** The end-to-end example of the spec: one Require generator on a source
    that already has a patch written by hand. *)
Lemma preprocess_registers_patch_source_witness :
  let s := specWith [Some requireGenerator] in
  let run :=
    Preprocess strconvEscapeASCII "gomod-cache" sampleSecrets samplePatchedSources
      s sampleSourceOpts sampleWorker [] (map_to_list (gomodSources s)) in
  run.2 = None ∧
  patchesOf run.1 "src" =
    [manualPatch;
     {| PatchSource := "__gomod_patch_src"; Strip := Some 1%Z; Path := "gomod.patch" |}] ∧
  is_Some (Sources run.1 !! "__gomod_patch_src").
Proof.
  intros s run.
  assert (Hrun : run = (run.1, None)) by (vm_compute; reflexivity).
  assert (Hsrc : gomodSources s !! "src" =
                   Some {| LLB := None; Generate := [Some requireGenerator] |})
    by (vm_compute; reflexivity).
  assert (Hbase : samplePatchedSources s sampleSourceOpts sampleWorker
                    (λ name, bool_decide (is_Some (gomodSources s !! name))) []
                    !! "src" = Some sampleBase)
    by (vm_compute; reflexivity).
  pose proof (proj2 (preprocess_registers_patch_source strconvEscapeASCII
                       "gomod-cache" sampleSecrets samplePatchedSources)
                s sampleSourceOpts sampleWorker [] (map_to_list (gomodSources s))
                run.1 "src" {| LLB := None; Generate := [Some requireGenerator] |}
                sampleBase (rangeOrder_map_to_list _) Hrun Hsrc Hbase)
    as [Hpatches Hsources].
  split_and!.
  - vm_compute; reflexivity.
  - vm_compute in Hpatches. vm_compute. exact Hpatches.
  - eexists. apply Hsources. vm_compute; reflexivity.
Defined.

(** The example of the spec: one Replace and one Require. *)
Lemma gomodEditCommand_flags_witness :
  Edits (gomodWith sampleEdits) = Some sampleEdits ∧
  rendersAll sampleEdits ∧
  (Replace sampleEdits ≠ [] ∨ Require sampleEdits ≠ []) ∧
  gomodEditCommand (Some (gomodWith sampleEdits)) =
    ("go mod edit -replace=old=new -require=mod@ver", None).
Proof.
  assert (Hok : rendersAll sampleEdits) by (split; repeat constructor).
  assert (Hne : Replace sampleEdits ≠ [] ∨ Require sampleEdits ≠ []) by (by left).
  split_and!; [reflexivity|exact Hok|exact Hne|].
  exact (gomodEditCommand_flags (gomodWith sampleEdits) sampleEdits eq_refl Hok Hne).
Defined.

Lemma noDirectives_noEdits : noDirectives (gomodWith noEdits).
Proof. by intros edits [= <-]. Defined.

Lemma hasNoDirectives_emptyGenerator : hasNoDirectives (Some emptyGenerator).
Proof. intros gen g [= <-] [= <-]. exact noDirectives_noEdits. Defined.

(** A source whose only generator has an empty edit set. *)
Lemma empty_edit_set_registers_nothing_witness :
  let s := specWith [Some emptyGenerator] in
  noDirectives (gomodWith noEdits) ∧
  gomodEditCommand (Some (gomodWith noEdits)) = ("", None) ∧
  generateGomodPatchStateForSource strconvEscapeASCII "gomod-cache" sampleSecrets
    "src" emptyGenerator sampleBase sampleWorker None [] = (None, None) ∧
  Preprocess strconvEscapeASCII "gomod-cache" sampleSecrets samplePatchedSources
    s sampleSourceOpts sampleWorker [] [("src", {| LLB := None;
                                                   Generate := [Some emptyGenerator] |})] =
    (s, None).
Proof.
  intros s.
  pose proof (empty_edit_set_registers_nothing strconvEscapeASCII "gomod-cache"
                sampleSecrets samplePatchedSources) as (Hgen & _ & Hpass).
  destruct (Hgen (gomodWith noEdits) noDirectives_noEdits) as (Hcmd & Hstate & _).
  split_and!.
  - exact noDirectives_noEdits.
  - exact Hcmd.
  - exact (Hstate "src" emptyGenerator sampleBase sampleWorker None [] eq_refl).
  - apply Hpass. intros sourceName src Hsrc.
    destruct (decide (sourceName = "src")) as [->|Hne].
    + vm_compute in Hsrc. injection Hsrc as <-.
      constructor; [exact hasNoDirectives_emptyGenerator|constructor].
    + unfold s, specWith in Hsrc. simpl in Hsrc.
      rewrite lookup_singleton_ne in Hsrc by done. discriminate Hsrc.
Defined.

(** The decode tests pass on the decoders. *)
Lemma decode_tests_pass :
  TestGomodRequireUnmarshal.passes (GomodRequire_Unmarshal sampleReadDocument) = true ∧
  TestGomodReplaceUnmarshal.passes (GomodReplace_Unmarshal sampleReadDocument) = true.
Proof. split; vm_compute; reflexivity. Qed.

(** A compact string of the string format with the YAML encoding. *)
Lemma Unmarshal_accepts_and_rejects_witness :
  let text := "github.com/stretchr/testify:github.com/stretchr/testify@v1.8.0" in
  sampleReadDocument encodingYAML (quoted text) = scalarNode text ∧
  GomodRequire_Unmarshal sampleReadDocument encodingYAML (quoted text) =
    inl {| Module := "github.com/stretchr/testify";
           Version := "github.com/stretchr/testify@v1.8.0" |} ∧
  GomodReplace_Unmarshal sampleReadDocument encodingYAML (quoted text) =
    inl {| Original := "github.com/stretchr/testify";
           Update := "github.com/stretchr/testify@v1.8.0" |}.
Proof.
  intros text.
  assert (Hdoc : sampleReadDocument encodingYAML (quoted text) =
                   scalarNode ("github.com/stretchr/testify" +:+
                               String colon "github.com/stretchr/testify@v1.8.0"))
    by (vm_compute; reflexivity).
  assert (Hfree : colon ∉ String.list_ascii_of_string "github.com/stretchr/testify")
    by (apply (bool_decide_unpack _); vm_compute; exact I).
  destruct (Unmarshal_accepts_and_rejects sampleReadDocument encodingYAML
              (quoted text)) as (Hcompact & _).
  destruct (Hcompact _ _ Hdoc Hfree) as (Hreplace & Hrequire & _).
  split_and!; [exact Hdoc|by apply Hrequire|exact Hreplace].
Defined.

(** The row of TestGomodRequireUnmarshal with the compact string
    [github.com/stretchr/testify:v1.8.0]: the string has its colon and
    lacks no field, so a decoder that leaves every other violation to
    validation returns the directive, which validation then rejects; the
    test expects an error from the decoder and fails on it. The same holds
    for the mapping whose version has no [@] and, in
    TestGomodReplaceUnmarshal, for the mapping with an empty [old]. The
    tests pass on the decoders that check these at decode time. *)
Lemma Unmarshal_rejects_unpinned_version :
  TestGomodRequireUnmarshal.tests !! 5%nat = Some unpinnedRequireTest ∧
  sampleReadDocument encodingYAML (TestGomodRequireUnmarshal.input unpinnedRequireTest) =
    scalarNode "github.com/stretchr/testify:v1.8.0" ∧
  GomodRequire_UnmarshalShape sampleReadDocument encodingYAML
    (TestGomodRequireUnmarshal.input unpinnedRequireTest) =
    inl {| Module := "github.com/stretchr/testify"; Version := "v1.8.0" |} ∧
  GomodRequire_validate {| Module := "github.com/stretchr/testify"; Version := "v1.8.0" |} =
    Some (errors_Join [errors_New "version must include @version"]) ∧
  TestGomodRequireUnmarshal.expectErr unpinnedRequireTest = true ∧
  TestGomodRequireUnmarshal.run (GomodRequire_UnmarshalShape sampleReadDocument)
    unpinnedRequireTest = false ∧
  map (TestGomodRequireUnmarshal.run (GomodRequire_UnmarshalShape sampleReadDocument))
    TestGomodRequireUnmarshal.tests =
    [true; true; true; true; true; false; true; false] ∧
  map (TestGomodReplaceUnmarshal.run (GomodReplace_UnmarshalShape sampleReadDocument))
    TestGomodReplaceUnmarshal.tests =
    [true; true; true; true; true; true; false] ∧
  TestGomodRequireUnmarshal.run (GomodRequire_Unmarshal sampleReadDocument)
    unpinnedRequireTest = true ∧
  GomodRequire_Unmarshal sampleReadDocument encodingYAML
    (TestGomodRequireUnmarshal.input unpinnedRequireTest) =
    inr (errors_New "version must include @version").
Proof. split_and!; vm_compute; reflexivity. Qed.

(** The Replace with two empty sides fails to render. *)
Lemma gomodEditCommand_first_render_error_witness :
  Edits (gomodWith invalidEdits) = Some invalidEdits ∧
  firstRenderError (renderOrder invalidEdits) = Some emptyReplaceError ∧
  gomodEditCommand (Some (gomodWith invalidEdits)) = ("", Some emptyReplaceError).
Proof.
  split_and!; [reflexivity|reflexivity|].
  exact (gomodEditCommand_first_render_error (gomodWith invalidEdits) invalidEdits
           emptyReplaceError eq_refl eq_refl).
Defined.

(** The compiler hands the render error back as it is: the result is the
    error of the render step, not a wrapper around it. *)
Lemma gomodEditCommand_returns_render_error_unwrapped :
  (GomodReplace_goModEditArg {| Original := ""; Update := "" |}).2 =
    Some emptyReplaceError ∧
  (gomodEditCommand (Some (gomodWith invalidEdits))).2 = Some emptyReplaceError ∧
  ¬ wrapsRenderError (gomodEditCommand (Some (gomodWith invalidEdits))).2
      emptyReplaceError.
Proof.
  split_and!; [reflexivity|reflexivity|].
  intros [identity Hwrap]. vm_compute in Hwrap. discriminate Hwrap.
Qed.

(** Two Auth mappings. In the first no host carries credential
    configuration, and the script still exports both variables with that
    host. In the second only the host with the port carries credential
    configuration, and the script exports both hosts, that one without its
    port. *)
Lemma goPrivate_exported_without_credentials :
  let script (Auth : gmap string GomodGitAuth) :=
    buildGomodPatchScript strconvEscapeASCII
      "go mod edit -require=example.com/a@v1.2.0" ["."] requireGenerator
      (gomodWithAuth Auth) "src" "/tmp/patch-work" in
  let d (Auth : gmap string GomodGitAuth) :=
    gomodScriptData strconvEscapeASCII
      "go mod edit -require=example.com/a@v1.2.0" ["."] requireGenerator
      (gomodWithAuth Auth) "src" "/tmp/patch-work" in
  credentialHosts uncredentialedAuth = [] ∧
  script uncredentialedAuth =
    (scriptPrologue (d uncredentialedAuth) +:+
     newline +:+ "export GOPRIVATE=" +:+ quoted "example.com" +:+
     newline +:+ "export GOINSECURE=" +:+ quoted "example.com" +:+
     scriptAfterGoPrivate (d uncredentialedAuth),
     None) ∧
  credentialHosts mixedAuth = ["git.example.com:8443"] ∧
  script mixedAuth =
    (scriptPrologue (d mixedAuth) +:+ scriptGitConfig (d mixedAuth) +:+
     newline +:+ "export GOPRIVATE=" +:+ quoted "example.com,git.example.com" +:+
     newline +:+ "export GOINSECURE=" +:+ quoted "example.com,git.example.com" +:+
     scriptAfterGoPrivate (d mixedAuth),
     None).
Proof. split_and!; vm_compute; reflexivity. Qed.

(** Two mappings with other key references, tokens and headers. *)
Lemma script_independent_of_credentials_witness :
  let g := gomodWithAuth (authWith "key-one" "token-one" "Authorization: one") in
  let g' := gomodWithAuth (authWith "key-two" "token-two" "Authorization: two") in
  sameCredentialKinds (Auth g) (Auth g') ∧
  buildGomodPatchScript strconvEscapeASCII "go mod edit -replace=old=new" ["."]
    requireGenerator g "src" "/tmp/patch-work" =
  buildGomodPatchScript strconvEscapeASCII "go mod edit -replace=old=new" ["."]
    requireGenerator g' "src" "/tmp/patch-work".
Proof.
  intros g g'.
  assert (Hsame : sameCredentialKinds (Auth g) (Auth g'))
    by (vm_compute; reflexivity).
  split; [exact Hsame|].
  exact (script_independent_of_credentials strconvEscapeASCII
           "go mod edit -replace=old=new" ["."] requireGenerator g g' "src"
           "/tmp/patch-work" Hsame).
Defined.

Lemma hasRenderedEdits_requireGenerator : hasRenderedEdits (Some requireGenerator).
Proof.
  eexists _, _, _. split_and!; [reflexivity..| |split; repeat constructor].
  by right.
Defined.

Lemma hasRenderedEdits_replaceGenerator : hasRenderedEdits (Some replaceGenerator).
Proof.
  eexists _, _, _. split_and!; [reflexivity..| |split; repeat constructor].
  by left.
Defined.

(** A source with a Require generator, a generator without directives, a nil
    generator and a Replace generator, preprocessed as the only source of a
    spec. *)
Lemma generators_share_patch_source_witness :
  let gens :=
    [Some requireGenerator; Some emptyGenerator; None; Some replaceGenerator] in
  let s := specWith gens in
  let run :=
    Preprocess strconvEscapeASCII "gomod-cache" sampleSecrets samplePatchedSources
      s sampleSourceOpts sampleWorker [] (map_to_list (gomodSources s)) in
  run.2 = None ∧
  2 ≤ length (filter (λ gen, hasGomodEdits gen = true) gens) ∧
  size (Sources run.1) = 2 ∧
  Sources run.1 !! "__gomod_patch_src" =
    patchSource <$>
      (generateGomodPatchStateForSource strconvEscapeASCII "gomod-cache" sampleSecrets
         "src" replaceGenerator sampleBase sampleWorker
         (GitCredHelperOpt sampleSourceOpts).1 []).1 ∧
  patchesOf run.1 "src" =
    [manualPatch;
     {| PatchSource := "__gomod_patch_src"; Strip := Some 1%Z; Path := "gomod.patch" |};
     {| PatchSource := "__gomod_patch_src"; Strip := Some 1%Z; Path := "gomod.patch" |}].
Proof.
  intros gens s run.
  assert (Hrun : run = (run.1, None)) by (vm_compute; reflexivity).
  assert (Hsrc : Sources s !! "src" = Some {| LLB := None; Generate := gens |})
    by (vm_compute; reflexivity).
  assert (Hbase : samplePatchedSources s sampleSourceOpts sampleWorker
                    (λ name, bool_decide (is_Some (gomodSources s !! name))) []
                    !! "src" = Some sampleBase)
    by (vm_compute; reflexivity).
  assert (Hlen : 2 ≤ length (filter (λ gen, hasGomodEdits gen = true) gens))
    by (vm_compute; lia).
  destruct (generators_share_patch_source strconvEscapeASCII "gomod-cache"
              sampleSecrets samplePatchedSources
              s sampleSourceOpts sampleWorker [] (map_to_list (gomodSources s))
              run.1 "src" {| LLB := None; Generate := gens |} sampleBase
              (rangeOrder_map_to_list _) Hrun Hsrc Hbase Hlen)
    as (patchStates & lastSt & _ & _ & _ & _ & Hpatches).
  split_and!.
  - vm_compute; reflexivity.
  - exact Hlen.
  - vm_compute; reflexivity.
  - vm_compute; reflexivity.
  - vm_compute in Hpatches. vm_compute. exact Hpatches.
Defined.

(** ** The tables of the tests

    The definitions modelled from the spec agree with the expectations of
    the tests that come with the sources. *)

Lemma goModEditArg_test_table :
  GomodRequire_goModEditArg
    {| Module := "github.com/stretchr/testify";
       Version := "github.com/stretchr/testify@v1.8.0" |} =
    ("github.com/stretchr/testify@v1.8.0", None) ∧
  is_Some (GomodRequire_goModEditArg
             {| Module := "github.com/stretchr/testify"; Version := "v1.8.0" |}).2 ∧
  is_Some (GomodRequire_goModEditArg
             {| Module := ""; Version := "github.com/stretchr/testify@v1.8.0" |}).2 ∧
  GomodReplace_goModEditArg
    {| Original := "github.com/stretchr/testify";
       Update := "github.com/stretchr/testify@v1.8.0" |} =
    ("github.com/stretchr/testify=github.com/stretchr/testify@v1.8.0", None) ∧
  is_Some (GomodReplace_goModEditArg
             {| Original := ""; Update := "github.com/stretchr/testify@v1.8.0" |}).2 ∧
  is_Some (GomodReplace_goModEditArg
             {| Original := "github.com/stretchr/testify"; Update := "" |}).2.
Proof. split_and!; try reflexivity; by eexists. Qed.

Lemma Validate_test_table :
  SourceGenerator_Validate
    (generatorWith
       {| Replace := [ {| Original := "github.com/old/module";
                          Update := "github.com/new/module@v1.0.0" |} ];
          Require := [ {| Module := "github.com/stretchr/testify";
                          Version := "github.com/stretchr/testify@v1.8.0" |} ] |}) =
    None ∧
  errorContains
    (SourceGenerator_Validate
       (generatorWith
          {| Replace := [];
             Require := [ {| Module := "github.com/stretchr/testify";
                             Version := "v1.8.0" |} ] |}))
    "version must include @version" = true ∧
  errorContains
    (SourceGenerator_Validate
       (generatorWith
          {| Replace := [];
             Require := [ {| Module := "";
                             Version := "github.com/stretchr/testify@v1.8.0" |} ] |}))
    "must be non-empty" = true ∧
  errorContains
    (SourceGenerator_Validate
       (generatorWith
          {| Replace := [ {| Original := "";
                             Update := "github.com/new/module@v1.0.0" |} ];
             Require := [] |}))
    "must be non-empty" = true ∧
  errorContains
    (SourceGenerator_Validate
       (generatorWith
          {| Replace := [ {| Original := "github.com/old/module"; Update := "" |} ];
             Require := [] |}))
    "must be non-empty" = true ∧
  is_Some (SourceGenerator_Validate (generatorWith invalidEdits)).
Proof. split_and!; try (vm_compute; reflexivity). by eexists. Qed.

(** The documents the sample reader finds in the inputs of the decode
    tests. *)
Lemma sampleReadDocument_test_inputs :
  map (λ tt, sampleReadDocument (TestGomodRequireUnmarshal.unmarshal tt)
               (TestGomodRequireUnmarshal.input tt))
    TestGomodRequireUnmarshal.tests =
    [scalarNode "github.com/stretchr/testify:github.com/stretchr/testify@v1.8.0";
     mappingNode [("module", "github.com/cpuguy83/tar2go");
                  ("version", "github.com/cpuguy83/tar2go@v0.3.1")];
     scalarNode "github.com/stretchr/testify:github.com/stretchr/testify@v1.8.0";
     mappingNode [("module", "github.com/cpuguy83/tar2go");
                  ("version", "github.com/cpuguy83/tar2go@v0.3.1")];
     scalarNode "github.com/stretchr/testify";
     scalarNode "github.com/stretchr/testify:v1.8.0";
     mappingNode [("module", "github.com/cpuguy83/tar2go")];
     mappingNode [("module", "github.com/cpuguy83/tar2go"); ("version", "v0.3.1")]] ∧
  map (λ tt, sampleReadDocument (TestGomodReplaceUnmarshal.unmarshal tt)
               (TestGomodReplaceUnmarshal.input tt))
    TestGomodReplaceUnmarshal.tests =
    [scalarNode "github.com/stretchr/testify:github.com/stretchr/testify@v1.8.0";
     mappingNode [("old", "github.com/cpuguy83/tar2go");
                  ("new", "github.com/cpuguy83/tar2go@v0.3.1")];
     scalarNode "github.com/stretchr/testify:github.com/stretchr/testify@v1.8.0";
     mappingNode [("old", "github.com/cpuguy83/tar2go");
                  ("new", "github.com/cpuguy83/tar2go@v0.3.1")];
     scalarNode "github.com/stretchr/testify";
     mappingNode [("old", "github.com/cpuguy83/tar2go")];
     mappingNode [("old", ""); ("new", "github.com/cpuguy83/tar2go@v0.3.1")]].
Proof. split; vm_compute; reflexivity. Qed.

(** ** Further properties at sample inputs *)

Lemma rendersGenerator_requireGenerator : rendersGenerator (Some requireGenerator).
Proof. intros edits [= <-]. reflexivity. Defined.

(** A Require generator, then a generator whose Replace has two empty sides,
    then a Replace generator that is never reached. *)
Lemma preprocessGenerators_stops_at_first_error_witness :
  let s := specWith [] in
  let run :=
    preprocessGenerators strconvEscapeASCII "gomod-cache" sampleSecrets s "src"
      sampleBase sampleWorker None []
      [Some requireGenerator; Some invalidGenerator; Some replaceGenerator] in
  Forall rendersGenerator [Some requireGenerator] ∧
  editsOf (Some invalidGenerator) = Some invalidEdits ∧
  firstRenderError (renderOrder invalidEdits) = Some emptyReplaceError ∧
  run.2 = Some (errors_Wrap emptyReplaceError
                  "failed to generate gomod patch state for source src") ∧
  patchesOf run.1 "src" =
    [manualPatch;
     {| PatchSource := "__gomod_patch_src"; Strip := Some 1%Z; Path := "gomod.patch" |}].
Proof.
  intros s run.
  assert (Hbefore : Forall rendersGenerator [Some requireGenerator])
    by (repeat constructor; exact rendersGenerator_requireGenerator).
  pose proof (preprocessGenerators_stops_at_first_error strconvEscapeASCII
                "gomod-cache" sampleSecrets s "src" sampleBase sampleWorker None []
                [Some requireGenerator] [Some replaceGenerator] invalidGenerator
                invalidEdits emptyReplaceError Hbefore eq_refl eq_refl) as Hrun.
  cbn [app] in Hrun.
  split_and!; [exact Hbefore|reflexivity|reflexivity| |].
  - unfold run. rewrite Hrun. reflexivity.
  - unfold run. rewrite Hrun. vm_compute. reflexivity.
Defined.

(** A pass that fails for want of a credential helper. *)
Lemma Preprocess_error_cases_witness :
  let s := specWith [Some requireGenerator] in
  let e :=
    errors_Wrap
      (errors_Wrap (errors_New "no credential helper")
         "failed to get git credential helper")
      "failed to preprocess gomod edits" in
  Preprocess strconvEscapeASCII "gomod-cache" sampleSecrets samplePatchedSources
    s failingSourceOpts sampleWorker [] (map_to_list (gomodSources s)) =
    (s, Some e) ∧
  ∃ cause, e = errors_Wrap cause "failed to preprocess gomod edits".
Proof.
  intros s e.
  assert (Hrun : Preprocess strconvEscapeASCII "gomod-cache" sampleSecrets
                   samplePatchedSources s failingSourceOpts sampleWorker []
                   (map_to_list (gomodSources s)) = (s, Some e))
    by (vm_compute; reflexivity).
  split; [exact Hrun|].
  destruct (Preprocess_error_cases strconvEscapeASCII "gomod-cache" sampleSecrets
              samplePatchedSources s failingSourceOpts sampleWorker []
              (map_to_list (gomodSources s)) s e Hrun) as (cause & Hcause & _).
  by exists cause.
Defined.

Lemma rangeOrder_alphaFirst : rangeOrder (gomodSources twoSourceSpec) alphaFirst.
Proof.
  unfold rangeOrder. vm_compute. first [reflexivity|apply perm_swap].
Defined.

Lemma rangeOrder_betaFirst : rangeOrder (gomodSources twoSourceSpec) betaFirst.
Proof.
  unfold rangeOrder. vm_compute. first [reflexivity|apply perm_swap].
Defined.

(** Two sources, met in both orders. *)
Lemma Preprocess_order_independent_witness :
  let run order :=
    Preprocess strconvEscapeASCII "gomod-cache" sampleSecrets samplePatchedSources
      twoSourceSpec sampleSourceOpts sampleWorker [] order in
  rangeOrder (gomodSources twoSourceSpec) alphaFirst ∧
  rangeOrder (gomodSources twoSourceSpec) betaFirst ∧
  (run alphaFirst).2 = None ∧
  run betaFirst = run alphaFirst ∧
  length (patchesOf (run betaFirst).1 "alpha") = 1 ∧
  length (patchesOf (run betaFirst).1 "beta") = 1.
Proof.
  intros run.
  assert (Hrun : run alphaFirst = ((run alphaFirst).1, None))
    by (vm_compute; reflexivity).
  pose proof (Preprocess_order_independent strconvEscapeASCII "gomod-cache"
                sampleSecrets samplePatchedSources twoSourceSpec sampleSourceOpts
                sampleWorker [] alphaFirst betaFirst (run alphaFirst).1
                rangeOrder_alphaFirst rangeOrder_betaFirst Hrun) as Hrun'.
  fold (run betaFirst) in Hrun'.
  split_and!; [exact rangeOrder_alphaFirst|exact rangeOrder_betaFirst| | | |].
  - vm_compute; reflexivity.
  - rewrite Hrun'. symmetry. exact Hrun.
  - rewrite Hrun'. vm_compute. reflexivity.
  - rewrite Hrun'. vm_compute. reflexivity.
Defined.

Lemma no_slash_src : slash ∉ String.list_ascii_of_string "src".
Proof.
  vm_compute. intros Hin.
  repeat (apply elem_of_cons in Hin as [Hin|Hin]; [discriminate Hin|]).
  by apply elem_of_nil in Hin.
Defined.

(** The patch state of the end-to-end example. *)
Lemma patch_state_holds_referenced_file_witness :
  let result :=
    generateGomodPatchStateForSource strconvEscapeASCII "gomod-cache" sampleSecrets
      "src" requireGenerator sampleBase sampleWorker None [] in
  (slash ∉ String.list_ascii_of_string "src") ∧
  ∃ patchSt runOpts,
    result = (Some patchSt, None) ∧
    patchSt =
      File (File Scratch (Mkdir "/__gomod_patch_src" 493 true) [])
        (Copy (RunAddMount sampleWorker runOpts "/tmp/patch-work" Scratch)
           "/gomod.patch" "/__gomod_patch_src/gomod.patch")
        [].
Proof.
  intros result. split; [exact no_slash_src|].
  destruct result as [[patchSt|] err] eqn:Hresult; [|vm_compute in Hresult; discriminate Hresult].
  assert (Herr : err = None) by (vm_compute in Hresult; congruence).
  subst err.
  destruct (patch_state_holds_referenced_file strconvEscapeASCII "gomod-cache"
              sampleSecrets "src" requireGenerator sampleBase sampleWorker None []
              patchSt no_slash_src Hresult) as [runOpts HpatchSt].
  exists patchSt, runOpts. split; [reflexivity|exact HpatchSt].
Defined.

(** The Require generator of the example declares no paths. *)
Lemma generate_default_path_witness :
  let g :=
    gomodWith
      {| Replace := [];
         Require := [ {| Module := "example.com/a";
                         Version := "example.com/a@v1.2.0" |} ] |} in
  let gen' :=
    {| Subpath := "";
       Gomod := Some {| Paths := ["."]; Auth := Auth g; Edits := Edits g |} |} in
  Gomod requireGenerator = Some g ∧
  Paths g = [] ∧
  generateGomodPatchStateForSource strconvEscapeASCII "gomod-cache" sampleSecrets
    "src" gen' sampleBase sampleWorker None [] =
  generateGomodPatchStateForSource strconvEscapeASCII "gomod-cache" sampleSecrets
    "src" requireGenerator sampleBase sampleWorker None [].
Proof.
  intros g gen'. split_and!; [reflexivity|reflexivity|].
  exact (generate_default_path strconvEscapeASCII "gomod-cache" sampleSecrets "src"
           requireGenerator g sampleBase sampleWorker None [] eq_refl eq_refl eq_refl).
Defined.

(** A fetch without rename of the source registered for [src]. *)
Lemma registered_patch_source_yields_patch_state_witness :
  let opt := {| Rename := ""; Constraints := [] |} in
  ∃ src llb,
    Sources (registerGomodPatch (specWith []) "src" sampleBase)
      !! "__gomod_patch_src" = Some src ∧
    LLB src = Some llb ∧
    SourceLLB_toMount llb opt = (storedState sampleBase, []).
Proof.
  intros opt.
  destruct (registered_patch_source_yields_patch_state (specWith []) "src"
              sampleBase opt (or_introl eq_refl))
    as (src & llb & Hsrc & Hllb & _ & _ & _ & Hstate & Hmount).
  exists src, llb. split_and!; [exact Hsrc|exact Hllb|].
  specialize (Hmount eq_refl).
  destruct (SourceLLB_toMount llb opt) as [st mopts]. simpl in *.
  by rewrite Hstate, Hmount.
Defined.

(** Two generators with other key references, tokens and headers. *)
Lemma patch_state_independent_of_credentials_witness :
  let gen :=
    {| Subpath := "";
       Gomod := Some (gomodWithAuth
                        (authWith "key-one" "token-one" "Authorization: one")) |} in
  let gen' :=
    {| Subpath := "";
       Gomod := Some (gomodWithAuth
                        (authWith "key-two" "token-two" "Authorization: two")) |} in
  sameCredentialKinds (authWith "key-one" "token-one" "Authorization: one")
    (authWith "key-two" "token-two" "Authorization: two") ∧
  is_Some (generateGomodPatchStateForSource strconvEscapeASCII "gomod-cache"
             sampleSecrets "src" gen sampleBase sampleWorker None []).1 ∧
  generateGomodPatchStateForSource strconvEscapeASCII "gomod-cache" sampleSecrets
    "src" gen sampleBase sampleWorker None [] =
  generateGomodPatchStateForSource strconvEscapeASCII "gomod-cache" sampleSecrets
    "src" gen' sampleBase sampleWorker None [].
Proof.
  intros gen gen'.
  assert (Hsame : sameCredentialKinds
                    (authWith "key-one" "token-one" "Authorization: one")
                    (authWith "key-two" "token-two" "Authorization: two"))
    by (vm_compute; reflexivity).
  split_and!; [exact Hsame|vm_compute; by eexists|].
  exact (patch_state_independent_of_credentials strconvEscapeASCII "gomod-cache"
           sampleSecrets "src" gen gen' _ _ sampleBase sampleWorker None []
           eq_refl eq_refl eq_refl eq_refl eq_refl Hsame eq_refl).
Defined.
